(** * Story index to test program: a model of [transformPlaywrightJson]

    The development embeds the transformer of
    [playwright/transformPlaywrightJson.ts]: version dispatch over the
    story index, grouping by title id, the v3 docs-only inference, the
    tag filters and the synthesis of one [describe] block per component.

    Modelling conventions.
    - A JavaScript object used as a dictionary is a [gmap string _] of
      its own properties; [Object.entries] is [map_to_list].  Results
      that are stated do not depend on the enumeration order (see
      [titleIdToTest_enumeration]).  Where the source reads a key of an
      object literal, the members inherited from [Object.prototype] are
      part of the model ([inherited]).
    - The [stories] / [entries] object of the index is the list of its
      properties in enumeration order, so [Object.values] is [map snd].
    - A thrown exception is the [Throw] case of [Result].
    - Collaborators that are imported by the source but are not part of
      it are Section variables: [toId] (from [@storybook/csf], which
      throws on some titles), [generate] (from [@babel/generator]),
      [testPrefixer] (the template of [transformPlaywright.ts]), the
      value of [getTagOptions ()], and [Number_toString], the decimal
      notation ECMAScript gives a number. *)

From Stdlib Require Import ZArith Ascii String DecimalString Floats.
From stdpp Require Import gmap strings list fin_maps.

Open Scope string_scope.
Open Scope list_scope.

(** ** JavaScript values and exceptions *)

#[local] Set Warnings "-register-all".

(** The values of a decoded JSON document, with [undefined] for what
    is absent.  A number is a binary64 float, as in JavaScript. *)
Inductive JsValue : Type :=
| JsUndefined
| JsNull
| JsBoolean (b : bool)
| JsNumber (x : float)
| JsString (s : string)
| JsArray (elements : list JsValue)
| JsObject (properties : list (string * JsValue)).
Arguments JsNumber x%_float.

(** Strict equality [x === n] against a number literal. *)
Definition strict_eq_number (x : JsValue) (n : float) : bool :=
  match x with
  | JsNumber m => PrimFloat.eqb m n
  | _ => false
  end.

Inductive JsError : Type :=
| Error (message : string)
| TypeError.

Inductive Result (A : Type) : Type :=
| Ok (a : A)
| Throw (e : JsError).
Arguments Ok {A} a.
Arguments Throw {A} e.

#[global] Instance JsError_eq_dec : EqDecision JsError.
Proof. solve_decision. Defined.

#[global] Instance Result_eq_dec {A : Type} `{EqDecision A} :
  EqDecision (Result A).
Proof. solve_decision. Defined.

Definition bind {A B : Type} (r : Result A) (k : A → Result B) : Result B :=
  match r with
  | Ok a => k a
  | Throw e => Throw e
  end.

Notation "x ←! r ; k" := (bind r (fun x => k))
  (at level 20, r at level 100, k at level 200, right associativity,
   format "x  ←!  r ;  '/' k").

(** [Array.prototype.map] with a callback that may throw. *)
Fixpoint mapM {A B : Type} (f : A → Result B) (l : list A) : Result (list B) :=
  match l with
  | [] => Ok []
  | x :: l' => y ←! f x; ys ←! mapM f l'; Ok (y :: ys)
  end.

(** [Array.prototype.reduce] with a callback that may throw. *)
Fixpoint reduceM {A B : Type} (f : B → A → Result B) (l : list A) (acc : B)
  : Result B :=
  match l with
  | [] => Ok acc
  | x :: l' => acc' ←! f acc x; reduceM f l' acc'
  end.

(** An object decoded from JSON has an own property of that name. *)
Definition hasOwnProperty (properties : list (string * JsValue)) (key : string)
  : bool :=
  existsb (fun property => String.eqb (fst property) key) properties.

Section ToString.

(** [Number::toString] of ECMAScript, in radix 10. *)
Variable Number_toString : float → string.

(** [ToString], as applied by a template literal [`${x}`], on decoded
    JSON.  An array is joined with commas, [null] and [undefined]
    elements giving the empty string.  An object goes through
    [Object.prototype.toString], unless it has an own member [toString]:
    that member is no function, [valueOf] returns the object itself,
    and the conversion throws. *)
Fixpoint ToString (x : JsValue) : Result string :=
  match x with
  | JsUndefined => Ok "undefined"
  | JsNull => Ok "null"
  | JsBoolean true => Ok "true"
  | JsBoolean false => Ok "false"
  | JsNumber n => Ok (Number_toString n)
  | JsString s => Ok s
  | JsArray elements =>
      (fix join (l : list JsValue) : Result string :=
         match l with
         | [] => Ok EmptyString
         | element :: rest =>
             next ←! match element with
                     | JsUndefined | JsNull => Ok EmptyString
                     | _ => ToString element
                     end;
             match rest with
             | [] => Ok next
             | _ => others ←! join rest; Ok (next +:+ "," +:+ others)
             end
         end) elements
  | JsObject properties =>
      if hasOwnProperty properties "toString" then Throw TypeError
      else Ok "[object Object]"
  end.

End ToString.


(** The result of an optional call [o?.m(x)] is [undefined] or a
    boolean; [truthy] is its conversion [ToBoolean]. *)
Definition truthy (x : option bool) : bool :=
  match x with
  | Some b => b
  | None => false
  end.

(** [Array.prototype.includes] on an array of strings. *)
Definition includes (l : list string) (x : string) : bool :=
  existsb (String.eqb x) l.

(** The names of the members every object literal inherits from
    [Object.prototype].  Each of them is a function, but [__proto__],
    which reads as the prototype itself: none is an array. *)
Definition Object_prototype : list string :=
  ["constructor"; "__defineGetter__"; "__defineSetter__"; "hasOwnProperty";
   "__lookupGetter__"; "__lookupSetter__"; "isPrototypeOf";
   "propertyIsEnumerable"; "toString"; "valueOf"; "__proto__";
   "toLocaleString"].

Definition inherited (key : string) : bool := includes Object_prototype key.

(** [Array.prototype.some] and [every]: the callback's result goes
    through [ToBoolean]. *)
Definition some {A : Type} (f : A → option bool) (l : list A) : bool :=
  existsb (fun x => truthy (f x)) l.

Definition every {A : Type} (f : A → bool) (l : list A) : bool :=
  forallb f l.

(** ** The Babel syntax tree built by the transformer *)

Inductive Expression : Type :=
| StringLiteral (value : string)
| Identifier (name : string)
| CallExpression (callee : Expression) (arguments : list Expression)
| ArrowFunctionExpression (params : list Expression) (body : Statement)
| ObjectExpression (properties : list (string * Expression))
with Statement : Type :=
| ExpressionStatement (expression : Expression)
| BlockStatement (body : list Statement).

Inductive Node : Type :=
| Program (body : list Statement).

#[global] Instance Expression_inhabited : Inhabited Expression :=
  populate (Identifier EmptyString).

(** ** Index entries *)

Inductive EntryType : Type := Story | Docs.

#[global] Instance EntryType_eq_dec : EqDecision EntryType.
Proof. solve_decision. Defined.

(** [type V4Entry]; [tags] is read through [?.] by the source, so an
    absent field is part of the model. *)
Module V4Entry.
Record t : Type := mk {
  type : option EntryType;
  id : string;
  name : string;
  title : string;
  tags : option (list string)
}.
End V4Entry.

(** [type V3Story = Omit<V4Entry, 'type'> & { parameters? }].  The
    transformer never reads [parameters]; it is kept as an opaque list of
    keys and values. *)
Module V3Story.
Record t : Type := mk {
  id : string;
  name : string;
  title : string;
  tags : option (list string);
  parameters : option (list (string * JsValue))
}.
End V3Story.

(** The decoded index document ([index: Record<string, any>]): the
    discriminant and the two property bags the transformer reads.  A bag
    that is missing is [None]. *)
Record Index : Type := {
  v : JsValue;
  stories : option (list (string * V3Story.t));
  entries : option (list (string * V4Entry.t))
}.

(** [Object.values (o)]; throws on [undefined]. *)
Definition Object_values {A : Type} (o : option (list (string * A)))
  : Result (list A) :=
  match o with
  | Some props => Ok (map snd props)
  | None => Throw TypeError
  end.

(** The object destructured from [getTagOptions ()]. *)
Record TagOptions : Type := {
  includeTags : list string;
  excludeTags : list string;
  skipTags : list string
}.

(** The placeholders handed to the [testPrefixer] template. *)
Module Prefixer.
Record t : Type := mk {
  name : Expression;
  title : Expression;
  id : Expression;
  storyExport : Expression
}.
End Prefixer.

(** ** The transformer *)

Section Transformer.

(** [Number::toString] of ECMAScript, in radix 10. *)
Variable Number_toString : float → string.
(** [toId] of [@storybook/csf]; it throws an [Error] on a title in which
    it finds nothing to keep. *)
Variable toId : string → Result string.
(** [generate (program, {}).code] of [@babel/generator]. *)
Variable generate : Node → string.
(** The [testPrefixer] template of [transformPlaywright.ts]: from the
    placeholders to the list of statements it expands to. *)
Variable testPrefixer : Prefixer.t → list Statement.
(** The value returned by [getTagOptions ()] during the run. *)
Variable getTagOptions : TagOptions.

(** [story.tags?.includes (tag)] *)
Definition tags_includes (story : V4Entry.t) (tag : string) : option bool :=
  match V4Entry.tags story with
  | Some tags => Some (includes tags tag)
  | None => None
  end.

(** [makeTest] (lines 8-32).  [result[1] as t.ExpressionStatement] is
    a cast without a check: when the template gives something else, the
    read of [.expression] or the builder of the call throws. *)
Definition makeTest (entry : V4Entry.t) (shouldSkip : bool)
    (metaOrStoryPlay : option bool) : Result Statement :=
  let result :=
    testPrefixer
      {| Prefixer.name := StringLiteral (V4Entry.name entry);
         Prefixer.title := StringLiteral (V4Entry.title entry);
         Prefixer.id := StringLiteral (V4Entry.id entry);
         Prefixer.storyExport := Identifier (V4Entry.id entry) |} in
  match result !! 1%nat with
  | Some (ExpressionStatement expression) =>
      Ok (ExpressionStatement
            (CallExpression
               (if shouldSkip then Identifier "it.skip" else Identifier "it")
               [StringLiteral
                  (if truthy metaOrStoryPlay then "play-test" else "smoke-test");
                expression]))
  | _ => Throw TypeError
  end.

Definition makeDescribe (title : string) (stmts : list Statement) : Statement :=
  ExpressionStatement
    (CallExpression (Identifier "describe")
       [StringLiteral title;
        ArrowFunctionExpression [] (BlockStatement stmts)]).

Definition isV3DocsOnly (stories : list V3Story.t) : bool :=
  (length stories =? 1)%nat
  && match stories !! 0%nat with
     | Some s => String.eqb (V3Story.name s) "Page"
     | None => false
     end.

Definition v3TitleMapToV4TitleMap (titleIdToStories : gmap string (list V3Story.t))
  : gmap string (list V4Entry.t) :=
  list_to_map
    (map (fun '(id, stories) =>
            (id,
             map (fun story =>
                    {| V4Entry.type :=
                         Some (if isV3DocsOnly stories then Docs else Story);
                       V4Entry.id := V3Story.id story;
                       V4Entry.name := V3Story.name story;
                       V4Entry.title := V3Story.title story;
                       V4Entry.tags := V3Story.tags story |})
                 stories))
         (map_to_list titleIdToStories)).

(** [groupByTitleId] (lines 77-84): [acc[titleId] = acc[titleId] || []]
    followed by the [push].  The accumulator is an object literal: where
    it has no own property [titleId], the read finds the member it
    inherits under that name, if there is one; that member is truthy, it
    is stored back as it is, and the call of its [push] throws. *)
Definition groupByTitleId {T : Type} (title : T → string) (entries : list T)
  : Result (gmap string (list T)) :=
  reduceM (fun acc entry =>
             titleId ←! toId (title entry);
             match acc !! titleId with
             | Some arr =>
                 let acc := <[titleId := arr]> acc in
                 Ok (alter (fun arr => arr ++ [entry]) titleId acc)
             | None =>
                 if inherited titleId then Throw TypeError
                 else
                   let acc := <[titleId := []]> acc in
                   Ok (alter (fun arr => arr ++ [entry]) titleId acc)
             end)
          entries ∅.

(** The three tests the filter and map callbacks make on a story
    (lines 112-121 of the source). *)
Definition isIncluded (story : V4Entry.t) : bool :=
  (length (includeTags getTagOptions) =? 0)%nat
  || some (fun tag => tags_includes story tag) (includeTags getTagOptions).

Definition isNotExcluded (story : V4Entry.t) : bool :=
  every (fun tag => negb (truthy (tags_includes story tag)))
        (excludeTags getTagOptions).

Definition shouldSkip (story : V4Entry.t) : bool :=
  some (fun tag => tags_includes story tag) (skipTags getTagOptions).

(** The version dispatch (lines 91-102). *)
Definition titleIdToEntries (index : Index)
  : Result (gmap string (list V4Entry.t)) :=
  if strict_eq_number (v index) 3 then
    values ←! Object_values (stories index);
    titleIdToStories ←! groupByTitleId V3Story.title values;
    Ok (v3TitleMapToV4TitleMap titleIdToStories)
  else if strict_eq_number (v index) 4 then
    values ←! Object_values (entries index);
    groupByTitleId V4Entry.title values
  else
    version ←! ToString Number_toString (v index);
    Throw (Error ("Unsupported version " +:+ version)).

(** The reduction over [Object.entries (titleIdToEntries)] (lines
    106-138), for a given enumeration of the groups. *)
Definition titleIdToTest (groups : list (string * list V4Entry.t))
  : Result (gmap string string) :=
  reduceM
    (fun acc '(titleId, entries) =>
       let stories :=
         List.filter
           (fun s => negb (bool_decide (V4Entry.type s = Some Docs))) entries in
       match stories with
       | story0 :: _ =>
           storyTests ←!
             mapM (fun story =>
                     test ←! makeTest story (shouldSkip story)
                                      (tags_includes story "play-fn");
                     Ok (makeDescribe (V4Entry.name story) [test]))
                  (List.filter
                     (fun story => isIncluded story && isNotExcluded story)
                     stories);
           let program :=
             Program [makeDescribe (V4Entry.title story0) storyTests] in
           let code := generate program in
           Ok (<[titleId := code]> acc)
       | [] => Ok acc
       end)
    groups ∅.

Definition transformPlaywrightJson (index : Index)
  : Result (gmap string string) :=
  groups ←! titleIdToEntries index;
  titleIdToTest (map_to_list groups).

(** ** The transformer, one group at a time

    The definitions below name the parts of the reduction, so that the
    properties can speak about them; [reduce_step] and
    [transformPlaywrightJson_Ok] relate them to the code above. *)

(** The entries of a group that are left by [s.type !== 'docs']. *)
Definition nonDocs (entries : list V4Entry.t) : list V4Entry.t :=
  List.filter (fun s => negb (bool_decide (V4Entry.type s = Some Docs))) entries.

(** The stories of a group that get a test case: those that pass the
    filter callback. *)
Definition storiesUnderTest (entries : list V4Entry.t) : list V4Entry.t :=
  List.filter (fun story => isIncluded story && isNotExcluded story)
              (nonDocs entries).

(** The expression [result[1].expression] for a story. *)
Definition testFunction (entry : V4Entry.t) : Expression :=
  match testPrefixer
          {| Prefixer.name := StringLiteral (V4Entry.name entry);
             Prefixer.title := StringLiteral (V4Entry.title entry);
             Prefixer.id := StringLiteral (V4Entry.id entry);
             Prefixer.storyExport := Identifier (V4Entry.id entry) |} !! 1%nat with
  | Some (ExpressionStatement expression) => expression
  | _ => inhabitant
  end.

(** The test case of a story: [it] or [it.skip], the declared name and
    the test function. *)
Definition testCase (story : V4Entry.t) : Statement :=
  ExpressionStatement
    (CallExpression
       (Identifier (if shouldSkip story then "it.skip" else "it"))
       [StringLiteral
          (if truthy (tags_includes story "play-fn")
           then "play-test" else "smoke-test");
        testFunction story]).

(** The block of a story: a [describe] named after the story, holding
    its test case. *)
Definition storyBlock (story : V4Entry.t) : Statement :=
  makeDescribe (V4Entry.name story) [testCase story].

(** The program of a group, when it has one. *)
Definition groupProgram (entries : list V4Entry.t) : option Node :=
  match nonDocs entries with
  | story0 :: _ =>
      Some (Program [makeDescribe (V4Entry.title story0)
                       (map storyBlock (storiesUnderTest entries))])
  | [] => None
  end.

(** The text of a group, as the reduce callback computes it. *)
Definition groupCode (entries : list V4Entry.t) : Result (option string) :=
  match nonDocs entries with
  | story0 :: _ =>
      storyTests ←!
        mapM (fun story =>
                test ←! makeTest story (shouldSkip story)
                                 (tags_includes story "play-fn");
                Ok (makeDescribe (V4Entry.name story) [test]))
             (storiesUnderTest entries);
      Ok (Some (generate
                  (Program [makeDescribe (V4Entry.title story0) storyTests])))
  | [] => Ok None
  end.

(** What a group contributes to the result: its text, or nothing. *)
Definition contribution (entries : list V4Entry.t) : option string :=
  match groupCode entries with
  | Ok code => code
  | Throw _ => None
  end.

(** The reduce callback, in terms of [groupCode]. *)
Definition storeGroup (acc : gmap string string)
    (group : string * list V4Entry.t) : Result (gmap string string) :=
  code ←! groupCode group.2;
  Ok (match code with
      | Some text => <[group.1 := text]> acc
      | None => acc
      end).

(** The entries a group of v3 stories is turned into. *)
Definition v3StoriesToV4Entries (stories : list V3Story.t) : list V4Entry.t :=
  map (fun story =>
         {| V4Entry.type := Some (if isV3DocsOnly stories then Docs else Story);
            V4Entry.id := V3Story.id story;
            V4Entry.name := V3Story.name story;
            V4Entry.title := V3Story.title story;
            V4Entry.tags := V3Story.tags story |})
      stories.

(** The members of a list whose title has a given title id. *)
Definition withTitleId {T : Type} (title : T → string) (titleId : string)
    (entries : list T) : list T :=
  List.filter (fun entry => bool_decide (toId (title entry) = Ok titleId))
              entries.

(** The exception [groupByTitleId] ends with on a list of titles: that of
    [toId] on the first title it throws on, or the [TypeError] of the
    first title id that names an inherited member. *)
Fixpoint groupingError (titles : list string) : option JsError :=
  match titles with
  | [] => None
  | title :: rest =>
      match toId title with
      | Throw e => Some e
      | Ok titleId =>
          if inherited titleId then Some TypeError else groupingError rest
      end
  end.

(** A run of the transformer, for whichever order [Object.entries]
    enumerates the groups in. *)
Inductive runs (index : Index) : Result (gmap string string) → Prop :=
| runs_throw e :
    titleIdToEntries index = Throw e → runs index (Throw e)
| runs_groups groups enumeration :
    titleIdToEntries index = Ok groups →
    enumeration ≡ₚ map_to_list groups →
    runs index (titleIdToTest enumeration).

End Transformer.

(** The tag set of an entry; an absent [tags] field has no member. *)
Definition tagSet (story : V4Entry.t) : list string :=
  default [] (V4Entry.tags story).

(** The template expands to at least two statements, the second of which
    is an expression statement: what the cast of [result[1]] in
    [makeTest] takes for granted. *)
Definition prefixerShape (testPrefixer : Prefixer.t → list Statement) : Prop :=
  ∀ o, ∃ expression,
    testPrefixer o !! 1%nat = Some (ExpressionStatement expression).

(** ** Instances of the collaborators, for the examples *)

Definition ascii_lower (c : ascii) : ascii :=
  let n := nat_of_ascii c in
  if ((65 <=? n) && (n <=? 90))%nat then ascii_of_nat (n + 32) else c.

Fixpoint lower_case (title : string) : string :=
  match title with
  | EmptyString => EmptyString
  | String c rest => String (ascii_lower c) (lower_case rest)
  end.

(** An instance of [toId] for the examples: it agrees with
    [@storybook/csf] on titles made of ASCII letters and digits, which
    that function puts in lower case, throwing on the empty title. *)
Definition sample_toId (title : string) : Result string :=
  match title with
  | EmptyString =>
      Throw (Error "Invalid kind '', must include alphanumeric characters")
  | _ => Ok (lower_case title)
  end.

(** The integer a float is, when it is one. *)
Definition float_to_Z (x : float) : option Z :=
  match Prim2SF x with
  | S754_zero _ => Some 0%Z
  | S754_finite negative m e =>
      let magnitude :=
        if (0 <=? e)%Z then Some (Z.pos m * 2 ^ e)%Z
        else if (Z.pos m mod 2 ^ (- e) =? 0)%Z
             then Some (Z.pos m / 2 ^ (- e))%Z
             else None in
      if negative then Z.opp <$> magnitude else magnitude
  | _ => None
  end.

(** An instance of [Number::toString] for the examples: it agrees with
    ECMAScript on the integers of magnitude below 10^21, which are
    written in plain decimal notation; no other number is used in an
    example. *)
Definition sample_Number_toString (x : float) : string :=
  match float_to_Z x with
  | Some n =>
      if (Z.abs n <? 10 ^ 21)%Z then NilZero.string_of_int (Z.to_int n)
      else EmptyString
  | None => EmptyString
  end.

(** An instance of [generate] for the examples: a one-line printer of
    the syntax tree, with string literals in single quotes. *)
Fixpoint print_expression (e : Expression) : string :=
  match e with
  | StringLiteral value => "'" +:+ value +:+ "'"
  | Identifier name => name
  | CallExpression callee arguments =>
      print_expression callee +:+ "("
      +:+ String.concat ", " (map print_expression arguments) +:+ ")"
  | ArrowFunctionExpression params body =>
      "(" +:+ String.concat ", " (map print_expression params) +:+ ") => "
      +:+ print_statement body
  | ObjectExpression properties =>
      "{" +:+ String.concat ", "
                (map (fun '(key, value) => key +:+ ": " +:+ print_expression value)
                     properties)
      +:+ "}"
  end
with print_statement (s : Statement) : string :=
  match s with
  | ExpressionStatement expression => print_expression expression +:+ ";"
  | BlockStatement body =>
      "{" +:+ String.concat " " (map print_statement body) +:+ "}"
  end.

Definition sample_generate (program : Node) : string :=
  match program with
  | Program body => String.concat " " (map print_statement body)
  end.

(** Modelled from the spec: [testPrefixer] lives in
    [transformPlaywright.ts], which is not among the sources.  The spec
    asks that the body of a test case reference the story by its id and
    pass title, name and id on as literal data; this instance expands to
    a logging statement followed by the test function, as the use of
    [result[1]] in [makeTest] requires. *)
Definition sample_testPrefixer (o : Prefixer.t) : list Statement :=
  [ExpressionStatement
     (CallExpression (Identifier "console.log")
        [ObjectExpression
           [("id", Prefixer.id o); ("title", Prefixer.title o);
            ("name", Prefixer.name o); ("storyExport", Prefixer.storyExport o)]]);
   ExpressionStatement
     (ArrowFunctionExpression []
        (BlockStatement
           [ExpressionStatement
              (CallExpression (Identifier "testFn")
                 [ObjectExpression
                    [("id", Prefixer.id o); ("title", Prefixer.title o);
                     ("name", Prefixer.name o)]])]))].

Definition no_tags : TagOptions :=
  {| includeTags := []; excludeTags := []; skipTags := [] |}.

Definition primary : V4Entry.t :=
  {| V4Entry.type := None; V4Entry.id := "a"; V4Entry.name := "Primary";
     V4Entry.title := "Button"; V4Entry.tags := Some ["play-fn"] |}.

Definition secondary : V4Entry.t :=
  {| V4Entry.type := None; V4Entry.id := "b"; V4Entry.name := "Secondary";
     V4Entry.title := "Button"; V4Entry.tags := Some [] |}.


(** A docs entry in the group of the button stories. *)
Definition button_docs : V4Entry.t :=
  {| V4Entry.type := Some Docs; V4Entry.id := "d"; V4Entry.name := "Docs";
     V4Entry.title := "Button"; V4Entry.tags := Some ["play-fn"] |}.

(** A docs entry that is alone in its group. *)
Definition intro_docs : V4Entry.t :=
  {| V4Entry.type := Some Docs; V4Entry.id := "e"; V4Entry.name := "Docs";
     V4Entry.title := "Intro"; V4Entry.tags := Some [] |}.

(** The index of the spec's example scenarios. *)
Definition button_index : Index :=
  {| v := JsNumber 4;
     stories := None;
     entries := Some [("a", primary); ("b", secondary)] |}.

(** An index whose only group holds the single story [primary]. *)
Definition primary_index : Index :=
  {| v := JsNumber 4; stories := None; entries := Some [("a", primary)] |}.

Definition docs_index : Index :=
  {| v := JsNumber 4;
     stories := None;
     entries := Some [("a", primary); ("d", button_docs); ("e", intro_docs)] |}.

Definition v5_index : Index :=
  {| v := JsNumber 5; stories := None; entries := Some [("a", primary)] |}.

Definition page_story : V3Story.t :=
  {| V3Story.id := "introduction--page"; V3Story.name := "Page";
     V3Story.title := "Introduction"; V3Story.tags := Some ["test"];
     V3Story.parameters := None |}.

Definition basic_story : V3Story.t :=
  {| V3Story.id := "button--basic"; V3Story.name := "Basic";
     V3Story.title := "Button"; V3Story.tags := Some ["test"];
     V3Story.parameters := Some [("docsOnly", JsBoolean false)] |}.

Definition v3_index : Index :=
  {| v := JsNumber 3;
     stories := Some [("introduction--page", page_story);
                      ("button--basic", basic_story)];
     entries := None |}.

Definition exclude_play : TagOptions :=
  {| includeTags := []; excludeTags := ["play-fn"]; skipTags := [] |}.

Definition include_and_exclude_play : TagOptions :=
  {| includeTags := ["play-fn"]; excludeTags := ["play-fn"]; skipTags := [] |}.

Definition skip_play : TagOptions :=
  {| includeTags := []; excludeTags := []; skipTags := ["play-fn"] |}.

Definition include_test : TagOptions :=
  {| includeTags := ["test"]; excludeTags := []; skipTags := [] |}.

(** Two stories whose titles differ in case only: they share a title
    id. *)
Definition loud : V4Entry.t :=
  {| V4Entry.type := Some Story; V4Entry.id := "f"; V4Entry.name := "Loud";
     V4Entry.title := "BUTTON"; V4Entry.tags := Some ["play-fn"] |}.

Definition mixed_case_index : Index :=
  {| v := JsNumber 4;
     stories := None;
     entries := Some [("f", loud); ("b", secondary)] |}.


(** The transformer with the instances above. *)
Definition sample_transform (opts : TagOptions) (index : Index)
  : Result (gmap string string) :=
  transformPlaywrightJson sample_Number_toString sample_toId sample_generate
                          sample_testPrefixer opts index.


(** ** Literals in the body of a test case *)

(** The string literal [value] occurs in an expression. *)
Fixpoint mentionsLiteral (value : string) (e : Expression) : bool :=
  match e with
  | StringLiteral value' => String.eqb value' value
  | Identifier _ => false
  | CallExpression callee arguments =>
      mentionsLiteral value callee || existsb (mentionsLiteral value) arguments
  | ArrowFunctionExpression params body =>
      existsb (mentionsLiteral value) params
      || statementMentionsLiteral value body
  | ObjectExpression properties =>
      existsb (fun property => mentionsLiteral value (snd property)) properties
  end
with statementMentionsLiteral (value : string) (s : Statement) : bool :=
  match s with
  | ExpressionStatement expression => mentionsLiteral value expression
  | BlockStatement body => existsb (statementMentionsLiteral value) body
  end.

(** ** The URL of the Storybook: [sanitizeURL] of [test-storybook.ts]

    A URL is a string of code units below 256. *)

(** [s.indexOf (needle)]: the position of the first occurrence, or -1. *)
Fixpoint indexOf (needle s : string) : Z :=
  if String.prefix needle s then 0%Z
  else match s with
       | EmptyString => (-1)%Z
       | String _ rest =>
           let i := indexOf needle rest in
           if (i =? -1)%Z then (-1)%Z else (i + 1)%Z
       end.

(** The code units the class [\s] holds, and the line terminators the
    wildcard [.] leaves out. *)
Definition isWhiteSpace (c : ascii) : bool :=
  let n := nat_of_ascii c in
  ((9 <=? n) && (n <=? 13) || (n =? 32) || (n =? 160))%nat.

Definition isLineTerminator (c : ascii) : bool :=
  let n := nat_of_ascii c in
  ((n =? 10) || (n =? 13))%nat.

Fixpoint allWhiteSpace (s : string) : bool :=
  match s with
  | EmptyString => true
  | String c rest => isWhiteSpace c && allWhiteSpace rest
  end.

(** What is left of [s] after the literal [lit], when [s] starts with
    it. *)
Fixpoint afterLiteral (lit s : string) : option string :=
  match lit with
  | EmptyString => Some s
  | String a lit' =>
      match s with
      | String b s' => if Ascii.eqb a b then afterLiteral lit' s' else None
      | EmptyString => None
      end
  end.

(** The regular expression [/name.html\s*$/] matches [s] from its first
    code unit on: the literal [name], any code unit but a line
    terminator, the literal [html], then white space up to the end. *)
Definition matchesHtmlSuffix (name s : string) : bool :=
  match afterLiteral name s with
  | Some (String c rest) =>
      negb (isLineTerminator c)
      && match afterLiteral "html" rest with
         | Some ws => allWhiteSpace ws
         | None => false
         end
  | _ => false
  end.

(** [s.replace (/name.html\s*$/, '')]: the leftmost match is removed;
    a match reaches the end of the string. *)
Fixpoint replaceHtmlSuffix (name s : string) : string :=
  if matchesHtmlSuffix name s then EmptyString
  else match s with
       | EmptyString => EmptyString
       | String c rest => String c (replaceHtmlSuffix name rest)
       end.

(** [s.slice (-1)]: the last code unit of [s], as a string. *)
Fixpoint slice_last (s : string) : string :=
  match s with
  | EmptyString => EmptyString
  | String c EmptyString => String c EmptyString
  | String _ rest => slice_last rest
  end.

(** [sanitizeURL] (lines 168-188). *)
Definition sanitizeURL (url : string) : string :=
  let finalURL := url in
  let finalURL :=
    if (indexOf "http://" finalURL =? -1)%Z
       && (indexOf "https://" finalURL =? -1)%Z
    then "http://" +:+ finalURL
    else finalURL in
  let finalURL := replaceHtmlSuffix "iframe" finalURL in
  let finalURL := replaceHtmlSuffix "index" finalURL in
  if negb (String.eqb (slice_last finalURL) "/")
  then finalURL +:+ "/"
  else finalURL.


(** ** A version-3 index seen as a version-4 index *)

(** The entry a v3 story is turned into, given whether its group is
    docs-only. *)
Definition v3StoryToV4Entry (docsOnly : bool) (story : V3Story.t) : V4Entry.t :=
  {| V4Entry.type := Some (if docsOnly then Docs else Story);
     V4Entry.id := V3Story.id story;
     V4Entry.name := V3Story.name story;
     V4Entry.title := V3Story.title story;
     V4Entry.tags := V3Story.tags story |}.

(** The version-4 index with the stories of a version-3 index, each with
    the explicit type that [isV3DocsOnly] infers for its group. *)
Definition v3AsV4 (toId : string → Result string) (index : Index) : Index :=
  {| v := JsNumber 4;
     stories := None;
     entries :=
       match stories index with
       | Some props =>
           Some (map (fun '(id, story) =>
                        (id,
                         v3StoryToV4Entry
                           (match toId (V3Story.title story) with
                            | Ok titleId =>
                                isV3DocsOnly
                                  (withTitleId toId V3Story.title titleId
                                               (map snd props))
                            | Throw _ => false
                            end)
                           story))
                     props)
       | None => None
       end |}.

(** The index without the [parameters] of its v3 stories. *)
Definition eraseParameters (index : Index) : Index :=
  {| v := v index;
     stories :=
       match stories index with
       | Some props =>
           Some (map (fun '(id, story) =>
                        (id,
                         {| V3Story.id := V3Story.id story;
                            V3Story.name := V3Story.name story;
                            V3Story.title := V3Story.title story;
                            V3Story.tags := V3Story.tags story;
                            V3Story.parameters := None |}))
                     props)
       | None => None
       end;
     entries := entries index |}.

(** ** The command that runs [nyc]: [getExecutorCommand] of
    [test-storybook.ts] *)

(** The package managers [detect-package-manager] tells apart. *)
Inductive PM : Type := Npm | Pnpm | Yarn | Bun.

Section Executor.

(** The outcome of [await detectPackageManager ()]. *)
Variable detectPackageManager : Result PM.
(** [getPackageManagerVersion]: the output of [<pm> --version], or the
    exception of [execSync]. *)
Variable getPackageManagerVersion : PM → Result string.
(** [semver.gte], which throws on a version it cannot read. *)
Variable semver_gte : string → string → Result bool.

(** The object [commands]; it has no member for [bun], and the call of
    an absent member throws. *)
Definition commands (packageManager : PM) : Result string :=
  match packageManager with
  | Npm => Ok "npx"
  | Pnpm =>
      pnpmVersion ←! getPackageManagerVersion Pnpm;
      useExec ←! semver_gte pnpmVersion "6.13.0";
      Ok (if useExec then "pnpm exec" else "pnpx")
  | Yarn =>
      yarnVersion ←! getPackageManagerVersion Yarn;
      useBerry ←! semver_gte yarnVersion "2.0.0";
      Ok (if useBerry then "yarn exec" else "yarn")
  | Bun => Throw TypeError
  end.

(** [getExecutorCommand] (lines 90-116). *)
Definition getExecutorCommand : Result string :=
  match (packageManager ←! detectPackageManager;
         let packageManager :=
           match packageManager with
           | Bun => Npm
           | _ => packageManager
           end in
         commands packageManager)
  with
  | Ok command => Ok command
  | Throw _ => commands Npm
  end.

End Executor.

(** ** Fetching the index: [getIndexJson] of [test-storybook.ts] *)


Section GetIndexJson.

(** The values [JSON.parse] returns. *)
Variable Json : Type.
Variable JSON_parse : string → Result Json.
(** The message of the error thrown when no index could be read. *)
Variable failedToFetch : string.



End GetIndexJson.


(** ** Properties *)

Lemma bind_Ok_inv {A B : Type} (r : Result A) (k : A → Result B) (b : B) :
  bind r k = Ok b → ∃ a, r = Ok a ∧ k a = Ok b.
Proof. destruct r as [a|e]; simpl; [eauto | discriminate]. Qed.

Lemma mapM_Ok {A B : Type} (f : A → Result B) (g : A → B) (l : list A) :
  (∀ x, x ∈ l → f x = Ok (g x)) → mapM f l = Ok (map g l).
Proof.
  induction l as [|x l IH]; intros Hf; simpl; [done|].
  rewrite Hf by left. simpl. rewrite IH; [done|].
  intros y Hy. apply Hf. by right.
Qed.

Lemma mapM_Throw {A B : Type} (f : A → Result B) (l : list A) (e : JsError) :
  mapM f l = Throw e → ∃ x, x ∈ l ∧ f x = Throw e.
Proof.
  induction l as [|x l IH]; simpl; [discriminate|].
  destruct (f x) as [y|e'] eqn:Hx; simpl.
  - destruct (mapM f l) as [ys|e'] eqn:Hl; simpl; [discriminate|].
    intros [= ->]. destruct IH as (z & Hz & Hfz); [done|].
    exists z. split; [by right | done].
  - intros [= ->]. exists x. split; [by left | done].
Qed.

Lemma includes_true (l : list string) (x : string) :
  includes l x = true ↔ x ∈ l.
Proof.
  unfold includes. rewrite existsb_exists. split.
  - intros (y & Hy & Heq). apply String.eqb_eq in Heq. subst.
    by apply list_elem_of_In.
  - intros Hx. exists x. split; [by apply list_elem_of_In | apply String.eqb_refl].
Qed.

Lemma mapM_Ok_inv {A B : Type} (f : A → Result B) (g : A → B) (l : list A)
    (ys : list B) :
  (∀ x y, f x = Ok y → y = g x) → mapM f l = Ok ys → ys = map g l.
Proof.
  intros Hfg. revert ys. induction l as [|x l IH]; intros ys; simpl.
  - by intros [= <-].
  - destruct (f x) as [y|] eqn:Hx; simpl; [|discriminate].
    destruct (mapM f l) as [ys'|]; simpl; [|discriminate].
    intros [= <-]. by rewrite (Hfg x y Hx), (IH ys').
Qed.

(** An induction principle that reaches the elements of an array. *)
Lemma JsValue_array_ind (P : JsValue → Prop) :
  P JsUndefined → P JsNull → (∀ b, P (JsBoolean b)) → (∀ x, P (JsNumber x)) →
  (∀ s, P (JsString s)) →
  (∀ elements, Forall P elements → P (JsArray elements)) →
  (∀ properties, P (JsObject properties)) →
  ∀ x, P x.
Proof.
  intros Hundefined Hnull Hboolean Hnumber Hstring Harray Hobject.
  fix IH 1. intros [| |b|x|s|elements|properties].
  - exact Hundefined.
  - exact Hnull.
  - apply Hboolean.
  - apply Hnumber.
  - apply Hstring.
  - apply Harray. induction elements as [|element elements IHelements];
      constructor; [apply IH | apply IHelements].
  - apply Hobject.
Qed.


(** The only exception of the conversion to a string is the [TypeError]
    of an object with a member of its own named [toString]. *)
Lemma ToString_Throw (Number_toString : float → string) (x : JsValue)
    (e : JsError) :
  ToString Number_toString x = Throw e → e = TypeError.
Proof.
  induction x as [| |b|n|s|elements IH|properties] using JsValue_array_ind;
    try (simpl; discriminate).
  - destruct b; discriminate.
  - cbn [ToString]. induction IH as [|element elements Hx _ IH]; [discriminate|].
    destruct (match element with
              | JsUndefined | JsNull => Ok EmptyString
              | _ => ToString Number_toString element
              end) as [next|e'] eqn:Hnext.
    + cbn [bind]. destruct elements as [|element' elements']; [discriminate|].
      destruct ((fix join (l : list JsValue) : Result string :=
                   match l with
                   | [] => Ok EmptyString
                   | element :: rest =>
                       next ←! match element with
                               | JsUndefined | JsNull => Ok EmptyString
                               | _ => ToString Number_toString element
                               end;
                       match rest with
                       | [] => Ok next
                       | _ :: _ =>
                           others ←! join rest; Ok (next +:+ "," +:+ others)
                       end
                   end) (element' :: elements')) as [others|e''] eqn:Hrest.
      * discriminate.
      * cbn [bind]. intros [= <-]. by apply IH.
    + cbn [bind]. intros [= <-]. apply Hx. by destruct element.
  - simpl. destruct (hasOwnProperty properties "toString"); congruence.
Qed.


Section Properties.

Variable Number_toString : float → string.
Variable toId : string → Result string.
Variable generate : Node → string.
Variable testPrefixer : Prefixer.t → list Statement.
Variable opts : TagOptions.

(** [story.tags?.includes (tag)] is truthy exactly when the tag is in
    the tag set. *)
Lemma tags_includes_truthy (story : V4Entry.t) (tag : string) :
  truthy (tags_includes story tag) = true ↔ tag ∈ tagSet story.
Proof.
  unfold tags_includes, tagSet. destruct (V4Entry.tags story) as [tags|]; simpl.
  - apply includes_true.
  - split; [discriminate | by intros ?%elem_of_nil].
Qed.

Lemma some_tags_true (story : V4Entry.t) (l : list string) :
  some (fun tag => tags_includes story tag) l = true
  ↔ ∃ tag, tag ∈ l ∧ tag ∈ tagSet story.
Proof.
  unfold some. rewrite existsb_exists. split.
  - intros (tag & Hin & Ht). exists tag.
    split; [by apply list_elem_of_In | by apply tags_includes_truthy].
  - intros (tag & Hin & Ht). exists tag.
    split; [by apply list_elem_of_In | by apply tags_includes_truthy].
Qed.

Lemma isNotExcluded_true (story : V4Entry.t) :
  isNotExcluded opts story = true
  ↔ ∀ tag, tag ∈ excludeTags opts → tag ∉ tagSet story.
Proof.
  unfold isNotExcluded, every. rewrite forallb_forall. split.
  - intros H tag Hin Ht. apply list_elem_of_In in Hin.
    specialize (H tag Hin). apply tags_includes_truthy in Ht.
    rewrite Ht in H. discriminate.
  - intros H tag Hin. apply list_elem_of_In in Hin.
    destruct (truthy (tags_includes story tag)) eqn:Ht; [|done].
    apply tags_includes_truthy in Ht. by destruct (H tag Hin).
Qed.

(** *** The test case of one story *)

Lemma makeTest_Throw (entry : V4Entry.t) (skip : bool) (play : option bool) e :
  makeTest testPrefixer entry skip play = Throw e → e = TypeError.
Proof.
  unfold makeTest.
  destruct (testPrefixer _ !! 1%nat) as [[expression|body]|]; congruence.
Qed.

Lemma makeTest_Ok (story : V4Entry.t) :
  prefixerShape testPrefixer →
  makeTest testPrefixer story (shouldSkip opts story)
           (tags_includes story "play-fn")
  = Ok (testCase testPrefixer opts story).
Proof.
  intros Hshape. unfold makeTest, testCase, testFunction.
  destruct (Hshape
              {| Prefixer.name := StringLiteral (V4Entry.name story);
                 Prefixer.title := StringLiteral (V4Entry.title story);
                 Prefixer.id := StringLiteral (V4Entry.id story);
                 Prefixer.storyExport := Identifier (V4Entry.id story) |})
    as [expression ->].
  by destruct (shouldSkip opts story).
Qed.

(** *** The text of one group *)

Lemma groupCode_Throw (entries : list V4Entry.t) e :
  groupCode generate testPrefixer opts entries = Throw e → e = TypeError.
Proof.
  unfold groupCode. destruct (nonDocs entries) as [|story0 rest]; [discriminate|].
  destruct (mapM _ _) as [tests|e'] eqn:Hmap; simpl; [discriminate|].
  intros [= ->]. apply mapM_Throw in Hmap as (story & _ & Hthrow).
  destruct (makeTest _ _ _ _) as [test|e''] eqn:Htest; simpl in Hthrow;
    [discriminate|].
  injection Hthrow as ->. by eapply makeTest_Throw.
Qed.

Lemma groupCode_Ok (entries : list V4Entry.t) :
  prefixerShape testPrefixer →
  groupCode generate testPrefixer opts entries
  = Ok (generate <$> groupProgram testPrefixer opts entries).
Proof.
  intros Hshape. unfold groupCode, groupProgram.
  destruct (nonDocs entries) as [|story0 rest]; [done|].
  rewrite (mapM_Ok _ (storyBlock testPrefixer opts)); [done|].
  intros story _. by rewrite makeTest_Ok.
Qed.

(** *** The reduction over the groups *)

(** The reduce callback: the text of the group, stored under its title
    id when there is one. *)
Lemma reduce_step (acc : gmap string string) titleId entries :
  (let stories := nonDocs entries in
   match stories with
   | story0 :: _ =>
       storyTests ←!
         mapM (fun story =>
                 test ←! makeTest testPrefixer story (shouldSkip opts story)
                                  (tags_includes story "play-fn");
                 Ok (makeDescribe (V4Entry.name story) [test]))
              (List.filter
                 (fun story => isIncluded opts story && isNotExcluded opts story)
                 stories);
       Ok (<[titleId := generate
                          (Program [makeDescribe (V4Entry.title story0)
                                      storyTests])]> acc)
   | [] => Ok acc
   end)
  = (code ←! groupCode generate testPrefixer opts entries;
     Ok (match code with
         | Some text => <[titleId := text]> acc
         | None => acc
         end)).
Proof.
  unfold groupCode, storiesUnderTest. simpl.
  destruct (nonDocs entries) as [|story0 rest]; [done|].
  by destruct (mapM _ _).
Qed.


Lemma reduceM_ext {A B : Type} (f g : B → A → Result B) (l : list A) (acc : B) :
  (∀ acc x, f acc x = g acc x) → reduceM f l acc = reduceM g l acc.
Proof.
  intros Hfg. revert acc. induction l as [|x l IH]; intros acc; simpl; [done|].
  rewrite Hfg. destruct (g acc x); simpl; [apply IH | done].
Qed.

Lemma titleIdToTest_storeGroup (groups : list (string * list V4Entry.t)) :
  titleIdToTest generate testPrefixer opts groups
  = reduceM (storeGroup generate testPrefixer opts) groups ∅.
Proof.
  unfold titleIdToTest. apply reduceM_ext. intros acc [titleId entries].
  unfold storeGroup. simpl. by rewrite <- reduce_step.
Qed.

(** The outcome of the reduction from any accumulator: it throws a
    [TypeError] when the text of some group does, and otherwise stores
    the contribution of every group under its title id. *)
Lemma reduceM_storeGroup (groups : list (string * list V4Entry.t))
    (acc : gmap string string) :
  NoDup groups.*1 →
  match reduceM (storeGroup generate testPrefixer opts) groups acc with
  | Ok m =>
      Forall (fun group =>
                ∃ code, groupCode generate testPrefixer opts group.2 = Ok code)
             groups
      ∧ ∀ titleId,
          m !! titleId
          = match (list_to_map groups : gmap string (list V4Entry.t)) !! titleId
            with
            | Some entries =>
                match contribution generate testPrefixer opts entries with
                | Some text => Some text
                | None => acc !! titleId
                end
            | None => acc !! titleId
            end
  | Throw e =>
      e = TypeError
      ∧ Exists (fun group =>
                  groupCode generate testPrefixer opts group.2 = Throw TypeError)
               groups
  end.
Proof.
  revert acc. induction groups as [|[k entries] groups IH]; intros acc Hnodup.
  - simpl. split; [constructor | done].
  - apply NoDup_cons in Hnodup as [Hk Hnodup]. simpl. unfold storeGroup at 1.
    simpl. destruct (groupCode _ _ _ entries) as [code|e] eqn:Hcode; simpl.
    + set (acc' := match code with Some text => <[k:=text]> acc | None => acc end).
      specialize (IH acc' Hnodup).
      destruct (reduceM _ groups acc') as [m|e].
      * destruct IH as [Hall Hlookup]. split.
        { constructor; [by exists code | done]. }
        intros titleId. rewrite Hlookup. unfold contribution at 2.
        destruct (decide (k = titleId)) as [<-|Hne].
        -- rewrite lookup_insert_eq.
           rewrite (not_elem_of_list_to_map_1 groups k Hk), Hcode.
           subst acc'. destruct code; [by rewrite lookup_insert_eq | done].
        -- rewrite lookup_insert_ne by done.
           assert (acc' !! titleId = acc !! titleId) as ->; [|done].
           subst acc'. destruct code; [by rewrite lookup_insert_ne | done].
      * destruct IH as [-> Hex]. split; [done | by right].
    + apply groupCode_Throw in Hcode as Heq. subst e.
      split; [done | by left].
Qed.

(** The reduction does not depend on the order in which the groups are
    enumerated. *)
Lemma titleIdToTest_enumeration (l1 l2 : list (string * list V4Entry.t)) :
  NoDup l1.*1 → l1 ≡ₚ l2 →
  titleIdToTest generate testPrefixer opts l1
  = titleIdToTest generate testPrefixer opts l2.
Proof.
  intros Hnodup1 Hperm.
  assert (NoDup l2.*1) as Hnodup2 by by rewrite <- Hperm.
  rewrite !titleIdToTest_storeGroup.
  pose proof (reduceM_storeGroup l1 ∅ Hnodup1) as H1.
  pose proof (reduceM_storeGroup l2 ∅ Hnodup2) as H2.
  destruct (reduceM _ l1 ∅) as [m1|e1], (reduceM _ l2 ∅) as [m2|e2].
  - destruct H1 as [_ H1], H2 as [_ H2]. f_equal. apply map_eq. intros k.
    by rewrite H1, H2, (list_to_map_proper l1 l2).
  - destruct H1 as [Hall _], H2 as [_ Hex]. rewrite <- Hperm in Hex.
    apply Exists_exists in Hex as (group & Hin & Hthrow).
    rewrite Forall_forall in Hall. destruct (Hall group Hin) as [code Hcode].
    congruence.
  - destruct H1 as [_ Hex], H2 as [Hall _]. rewrite Hperm in Hex.
    apply Exists_exists in Hex as (group & Hin & Hthrow).
    rewrite Forall_forall in Hall. destruct (Hall group Hin) as [code Hcode].
    congruence.
  - destruct H1 as [-> _], H2 as [-> _]. done.
Qed.

(** A successful run stores, under each title id, the contribution of
    the group of that title id, and the text of every group was
    computed. *)
Lemma transformPlaywrightJson_Ok_inv (index : Index) (out : gmap string string) :
  transformPlaywrightJson Number_toString toId generate testPrefixer opts index = Ok out →
  ∃ groups,
    titleIdToEntries Number_toString toId index = Ok groups
    ∧ (∀ titleId,
         out !! titleId
         = groups !! titleId ≫= contribution generate testPrefixer opts)
    ∧ (∀ titleId entries,
         groups !! titleId = Some entries →
         ∃ code, groupCode generate testPrefixer opts entries = Ok code).
Proof.
  unfold transformPlaywrightJson. intros (groups & Hgroups & Hout)%bind_Ok_inv.
  exists groups. split; [done|].
  rewrite titleIdToTest_storeGroup in Hout.
  pose proof (reduceM_storeGroup (map_to_list groups) ∅
                (NoDup_fst_map_to_list groups)) as Hspec.
  rewrite Hout in Hspec. destruct Hspec as [Hall Hlookup]. split.
  - intros k. rewrite Hlookup, list_to_map_to_list, lookup_empty.
    destruct (groups !! k) as [entries|]; simpl; [|done].
    by destruct (contribution _ _ _ entries).
  - intros k entries Hk. rewrite Forall_forall in Hall.
    apply (Hall (k, entries)). by apply elem_of_map_to_list.
Qed.

(** When the template has the expected shape, the run succeeds as soon
    as the version dispatch does, and the result holds the rendered
    program of every group that has one. *)
Lemma transformPlaywrightJson_Ok (index : Index)
    (groups : gmap string (list V4Entry.t)) :
  prefixerShape testPrefixer →
  titleIdToEntries Number_toString toId index = Ok groups →
  ∃ out,
    transformPlaywrightJson Number_toString toId generate testPrefixer opts index = Ok out
    ∧ ∀ titleId,
        out !! titleId
        = groups !! titleId
            ≫= fun entries => generate <$> groupProgram testPrefixer opts entries.
Proof.
  intros Hshape Hgroups.
  destruct (transformPlaywrightJson Number_toString toId generate testPrefixer opts index)
    as [out|e] eqn:Hrun.
  - exists out. split; [done|]. intros k.
    apply transformPlaywrightJson_Ok_inv in Hrun as (groups' & Hg' & Hlookup & _).
    assert (groups' = groups) as -> by congruence.
    rewrite Hlookup. destruct (groups !! k) as [entries|]; simpl; [|done].
    unfold contribution. by rewrite groupCode_Ok.
  - exfalso. unfold transformPlaywrightJson in Hrun. rewrite Hgroups in Hrun.
    simpl in Hrun. rewrite titleIdToTest_storeGroup in Hrun.
    pose proof (reduceM_storeGroup (map_to_list groups) ∅
                  (NoDup_fst_map_to_list groups)) as Hspec.
    rewrite Hrun in Hspec. destruct Hspec as [_ Hex].
    apply Exists_exists in Hex as (group & _ & Hthrow).
    by rewrite groupCode_Ok in Hthrow.
Qed.

(** *** Grouping and the version dispatch *)

(** One step of the grouping stores the entry at the end of the group of
    its title id. *)
Lemma groupByTitleId_push {T : Type} (acc : gmap string (list T))
    (titleId : string) (arr : list T) (entry : T) :
  alter (fun arr => arr ++ [entry]) titleId (<[titleId := arr]> acc)
  = <[titleId := arr ++ [entry]]> acc.
Proof.
  apply map_eq. intros k. rewrite lookup_alter.
  destruct (decide (titleId = k)) as [<-|Hne].
  - by rewrite !lookup_insert_eq.
  - by rewrite !lookup_insert_ne.
Qed.

Lemma withTitleId_cons {T : Type} (title : T → string) (titleId : string)
    (entry : T) (entries : list T) :
  withTitleId toId title titleId (entry :: entries)
  = if bool_decide (toId (title entry) = Ok titleId)
    then entry :: withTitleId toId title titleId entries
    else withTitleId toId title titleId entries.
Proof. done. Qed.

(** The reduction of [groupByTitleId] from an accumulator that has no
    inherited key: it throws what [groupingError] tells, and otherwise
    adds to each group the entries of its title id, in order. *)
Lemma groupByTitleId_reduce {T : Type} (title : T → string) (entries : list T)
    (acc : gmap string (list T)) :
  (∀ k, is_Some (acc !! k) → inherited k = false) →
  match
    reduceM (fun acc entry =>
               titleId ←! toId (title entry);
               match acc !! titleId with
               | Some arr =>
                   Ok (alter (fun arr => arr ++ [entry]) titleId
                             (<[titleId := arr]> acc))
               | None =>
                   if inherited titleId then Throw TypeError
                   else
                     Ok (alter (fun arr => arr ++ [entry]) titleId
                               (<[titleId := []]> acc))
               end)
            entries acc
  with
  | Ok groups =>
      groupingError toId (map title entries) = None
      ∧ ∀ titleId,
          groups !! titleId
          = match withTitleId toId title titleId entries with
            | [] => acc !! titleId
            | group => Some (default [] (acc !! titleId) ++ group)
            end
  | Throw e => groupingError toId (map title entries) = Some e
  end.
Proof.
  revert acc. induction entries as [|entry entries IH]; intros acc Hacc.
  { simpl. by split. }
  cbn [reduceM map groupingError]. destruct (toId (title entry)) as [k|e] eqn:Hk;
    cbn [bind]; [|done].
  assert (∀ arr,
            (acc !! k = Some arr ∨ (acc !! k = None ∧ arr = []
                                    ∧ inherited k = false)) →
            match
              reduceM (fun acc entry =>
                         titleId ←! toId (title entry);
                         match acc !! titleId with
                         | Some arr =>
                             Ok (alter (fun arr => arr ++ [entry]) titleId
                                       (<[titleId := arr]> acc))
                         | None =>
                             if inherited titleId then Throw TypeError
                             else
                               Ok (alter (fun arr => arr ++ [entry]) titleId
                                         (<[titleId := []]> acc))
                         end)
                      entries (<[k := arr ++ [entry]]> acc)
            with
            | Ok groups =>
                (if inherited k then Some TypeError
                 else groupingError toId (map title entries)) = None
                ∧ ∀ titleId,
                    groups !! titleId
                    = match withTitleId toId title titleId (entry :: entries)
                      with
                      | [] => acc !! titleId
                      | group => Some (default [] (acc !! titleId) ++ group)
                      end
            | Throw e =>
                (if inherited k then Some TypeError
                 else groupingError toId (map title entries)) = Some e
            end) as Hstep.
  { intros arr Harr.
    assert (inherited k = false) as Hk'.
    { destruct Harr as [Harr | (_ & _ & ?)]; [|done]. apply Hacc. by eexists. }
    assert (default [] (acc !! k) = arr) as Hdefault.
    { by destruct Harr as [-> | (-> & -> & _)]. }
    rewrite Hk'.
    specialize (IH (<[k := arr ++ [entry]]> acc)).
    destruct (reduceM _ entries _) as [groups|e].
    - destruct IH as [Herr Hlookup].
      { intros k' [x Hx]. destruct (decide (k = k')) as [<-|Hne]; [done|].
        rewrite lookup_insert_ne in Hx by done. apply Hacc. by eexists. }
      split; [done|]. intros titleId. rewrite Hlookup, withTitleId_cons, Hk.
      case_bool_decide as Hid.
      + injection Hid as ->. rewrite lookup_insert_eq, Hdefault. simpl.
        destruct (withTitleId toId title titleId entries); [done|].
        by rewrite <- app_assoc.
      + assert (k ≠ titleId) by congruence.
        by rewrite lookup_insert_ne.
    - apply IH. intros k' [x Hx]. destruct (decide (k = k')) as [<-|Hne]; [done|].
      rewrite lookup_insert_ne in Hx by done. apply Hacc. by eexists. }
  destruct (acc !! k) as [arr|] eqn:Hlook.
  - cbn zeta. rewrite groupByTitleId_push. cbn [bind]. apply Hstep. by left.
  - destruct (inherited k) eqn:Hinh; [done|].
    cbn zeta. rewrite groupByTitleId_push. cbn [bind]. apply (Hstep []).
    by right.
Qed.

(** [groupByTitleId] returns when no title makes it throw, and the
    group of a title id is then the list of the entries with that title
    id, in the order of the input. *)
Lemma groupByTitleId_Ok {T : Type} (title : T → string) (entries : list T)
    (groups : gmap string (list T)) :
  groupByTitleId toId title entries = Ok groups →
  groupingError toId (map title entries) = None
  ∧ ∀ titleId,
      groups !! titleId
      = match withTitleId toId title titleId entries with
        | [] => None
        | group => Some group
        end.
Proof.
  unfold groupByTitleId. intros Hgroups.
  pose proof (groupByTitleId_reduce title entries ∅) as Hspec.
  rewrite Hgroups in Hspec. destruct Hspec as [Herr Hlookup].
  { intros k [x Hx]. by rewrite lookup_empty in Hx. }
  split; [done|]. intros titleId. rewrite Hlookup, lookup_empty.
  by destruct (withTitleId _ _ _ _).
Qed.

Lemma groupByTitleId_lookup {T : Type} (title : T → string) (entries : list T)
    (groups : gmap string (list T)) (titleId : string) :
  groupByTitleId toId title entries = Ok groups →
  groups !! titleId
  = match withTitleId toId title titleId entries with
    | [] => None
    | group => Some group
    end.
Proof. intros Hgroups. by apply groupByTitleId_Ok. Qed.

Lemma groupByTitleId_Throw {T : Type} (title : T → string) (entries : list T)
    (e : JsError) :
  groupByTitleId toId title entries = Throw e
  ↔ groupingError toId (map title entries) = Some e.
Proof.
  unfold groupByTitleId.
  pose proof (groupByTitleId_reduce title entries ∅) as Hspec.
  destruct (reduceM _ entries ∅) as [groups|e'].
  - destruct Hspec as [Herr _].
    { intros k [x Hx]. by rewrite lookup_empty in Hx. }
    rewrite Herr. split; discriminate.
  - rewrite Hspec by (intros k [x Hx]; by rewrite lookup_empty in Hx).
    split; congruence.
Qed.

(** No title makes the grouping throw when [toId] returns on every
    title a title id that names no member of [Object.prototype]. *)
Lemma groupingError_None (titles : list string) :
  groupingError toId titles = None
  ↔ ∀ title, title ∈ titles →
             ∃ titleId, toId title = Ok titleId ∧ inherited titleId = false.
Proof.
  induction titles as [|title titles IH]; simpl.
  - split; [by intros _ ? ?%elem_of_nil | done].
  - destruct (toId title) as [k|e] eqn:Hk.
    + destruct (inherited k) eqn:Hinh.
      * split; [discriminate|]. intros H.
        destruct (H title) as (k' & Hk' & Hinh'); [left|]. congruence.
      * rewrite IH. split.
        -- intros H t [->|Hin]%elem_of_cons; [by eauto | by apply H].
        -- intros H t Hin. apply H. by right.
    + split; [discriminate|]. intros H.
      destruct (H title) as (k' & Hk' & _); [left|]. congruence.
Qed.

(** The exception of the grouping is the one [toId] throws on a title,
    or the [TypeError] of a title id that names a member of
    [Object.prototype]. *)
Lemma groupingError_Some (titles : list string) (e : JsError) :
  groupingError toId titles = Some e →
  ∃ title,
    title ∈ titles
    ∧ (toId title = Throw e
       ∨ e = TypeError
         ∧ ∃ titleId, toId title = Ok titleId ∧ inherited titleId = true).
Proof.
  induction titles as [|title titles IH]; simpl; [discriminate|].
  destruct (toId title) as [k|e'] eqn:Hk.
  - destruct (inherited k) eqn:Hinh.
    + intros [= <-]. exists title. split; [left|]. right. by eauto.
    + intros (t & Hin & Ht)%IH. exists t. split; [by right | done].
  - intros [= <-]. exists title. split; [left | by left].
Qed.

Lemma v3TitleMapToV4TitleMap_lookup (titleIdToStories : gmap string (list V3Story.t))
    (titleId : string) :
  v3TitleMapToV4TitleMap titleIdToStories !! titleId
  = v3StoriesToV4Entries <$> titleIdToStories !! titleId.
Proof.
  unfold v3TitleMapToV4TitleMap.
  rewrite (map_ext _ (prod_map id v3StoriesToV4Entries)) by by intros [].
  change (map ?f ?l) with (f <$> l).
  by rewrite list_to_map_fmap, list_to_map_to_list, lookup_fmap.
Qed.

Lemma titleIdToEntries_v3 (index : Index) props :
  v index = JsNumber 3 → stories index = Some props →
  titleIdToEntries Number_toString toId index
  = (titleIdToStories ←! groupByTitleId toId V3Story.title (map snd props);
     Ok (v3TitleMapToV4TitleMap titleIdToStories)).
Proof. unfold titleIdToEntries. by intros -> ->. Qed.

Lemma titleIdToEntries_v4 (index : Index) props :
  v index = JsNumber 4 → entries index = Some props →
  titleIdToEntries Number_toString toId index
  = groupByTitleId toId V4Entry.title (map snd props).
Proof. unfold titleIdToEntries. by intros -> ->. Qed.

Lemma elem_of_nonDocs (entries : list V4Entry.t) (e : V4Entry.t) :
  e ∈ nonDocs entries ↔ e ∈ entries ∧ V4Entry.type e ≠ Some Docs.
Proof.
  unfold nonDocs. rewrite !list_elem_of_In, filter_In, negb_true_iff.
  by rewrite bool_decide_eq_false.
Qed.

Lemma elem_of_storiesUnderTest (entries : list V4Entry.t) (e : V4Entry.t) :
  e ∈ storiesUnderTest opts entries
  ↔ e ∈ entries ∧ V4Entry.type e ≠ Some Docs
    ∧ isIncluded opts e = true ∧ isNotExcluded opts e = true.
Proof.
  unfold storiesUnderTest.
  rewrite list_elem_of_In, filter_In, <- list_elem_of_In, elem_of_nonDocs.
  rewrite andb_true_iff. tauto.
Qed.

(** *** The properties of the specification *)

(** A group with no entry left by the docs filter stores nothing. *)
Lemma no_key_without_stories (index : Index)
    (groups : gmap string (list V4Entry.t)) (titleId : string)
    (entries : list V4Entry.t) (out : gmap string string) :
  titleIdToEntries Number_toString toId index = Ok groups →
  groups !! titleId = Some entries →
  nonDocs entries = [] →
  transformPlaywrightJson Number_toString toId generate testPrefixer opts index = Ok out →
  out !! titleId = None.
Proof.
  intros Hgroups Hk Hnone Hrun.
  apply transformPlaywrightJson_Ok_inv in Hrun as (groups' & Hg' & Hlookup & _).
  assert (groups' = groups) as -> by congruence.
  rewrite Hlookup, Hk. simpl. unfold contribution, groupCode. by rewrite Hnone.
Qed.

Lemma nonDocs_nil (entries : list V4Entry.t) :
  nonDocs entries = [] ↔ ∀ e, e ∈ entries → V4Entry.type e = Some Docs.
Proof.
  split.
  - intros Hnone e Hin. destruct (decide (V4Entry.type e = Some Docs)); [done|].
    assert (e ∈ nonDocs entries) as Hmem by by apply elem_of_nonDocs.
    rewrite Hnone in Hmem. by apply elem_of_nil in Hmem.
  - intros Hdocs. destruct (nonDocs entries) as [|e rest] eqn:Hnd; [done|].
    assert (e ∈ nonDocs entries) as [Hin Hne]%elem_of_nonDocs
      by (rewrite Hnd; left).
    by destruct Hne; apply Hdocs.
Qed.

(** C1, as amended: a component group all of whose entries are removed
    by the docs filter (none is left by [s.type !== 'docs']) has no key
    in the mapping returned by [transformPlaywrightJson]. *)
Theorem docs_only_group_omitted (index : Index)
    (groups : gmap string (list V4Entry.t)) (titleId : string)
    (entries : list V4Entry.t) (out : gmap string string) :
  titleIdToEntries Number_toString toId index = Ok groups →
  groups !! titleId = Some entries →
  (∀ e, e ∈ entries → V4Entry.type e = Some Docs) →
  transformPlaywrightJson Number_toString toId generate testPrefixer opts index = Ok out →
  out !! titleId = None.
Proof.
  intros Hgroups Hk Hdocs Hrun.
  eapply no_key_without_stories; [done | done | | done].
  by apply nonDocs_nil.
Qed.


(** C3: in a version-3 index whose stories could be grouped, a title
    group made of exactly one story whose name is exactly "Page" is
    turned into a single docs entry, and its title id is no key of the
    returned mapping, whatever the tags of the story and whatever the
    tag options. *)
Theorem v3_page_group_is_docs_only (index : Index) props
    (groups : gmap string (list V4Entry.t)) (titleId : string)
    (s : V3Story.t) :
  v index = JsNumber 3 →
  stories index = Some props →
  titleIdToEntries Number_toString toId index = Ok groups →
  withTitleId toId V3Story.title titleId (map snd props) = [s] →
  V3Story.name s = "Page" →
  groups !! titleId
  = Some [{| V4Entry.type := Some Docs;
             V4Entry.id := V3Story.id s;
             V4Entry.name := V3Story.name s;
             V4Entry.title := V3Story.title s;
             V4Entry.tags := V3Story.tags s |}]
  ∧ ∀ out,
      transformPlaywrightJson Number_toString toId generate testPrefixer opts index
      = Ok out →
      out !! titleId = None.
Proof.
  intros Hv Hprops Hgroups Hgroup Hname.
  assert (groups !! titleId
          = Some [{| V4Entry.type := Some Docs;
                     V4Entry.id := V3Story.id s;
                     V4Entry.name := V3Story.name s;
                     V4Entry.title := V3Story.title s;
                     V4Entry.tags := V3Story.tags s |}]) as Hk.
  { rewrite (titleIdToEntries_v3 index props Hv Hprops) in Hgroups.
    apply bind_Ok_inv in Hgroups as (titleIdToStories & Hstories & [= <-]).
    rewrite v3TitleMapToV4TitleMap_lookup.
    rewrite (groupByTitleId_lookup _ _ _ _ Hstories), Hgroup.
    simpl. unfold v3StoriesToV4Entries, isV3DocsOnly. simpl.
    by rewrite Hname. }
  split; [done|]. intros out Hrun.
  by eapply no_key_without_stories.
Qed.

Lemma play_fn_truthy (story : V4Entry.t) :
  truthy (tags_includes story "play-fn")
  = bool_decide ("play-fn" ∈ tagSet story).
Proof.
  destruct (truthy _) eqn:Ht; symmetry.
  - by apply bool_decide_eq_true, tags_includes_truthy.
  - apply bool_decide_eq_false. intros Hin%tags_includes_truthy. congruence.
Qed.

(** The text stored for a group that has a story: the rendered suite of
    the group, with one block per story under test. *)
Lemma group_text (index : Index) (groups : gmap string (list V4Entry.t))
    (titleId : string) (entries : list V4Entry.t) (e : V4Entry.t) :
  prefixerShape testPrefixer →
  titleIdToEntries Number_toString toId index = Ok groups →
  groups !! titleId = Some entries →
  e ∈ entries → V4Entry.type e ≠ Some Docs →
  ∃ out title,
    transformPlaywrightJson Number_toString toId generate testPrefixer opts index = Ok out
    ∧ out !! titleId
      = Some (generate
                (Program
                   [makeDescribe title
                      (map (storyBlock testPrefixer opts)
                           (storiesUnderTest opts entries))])).
Proof.
  intros Hshape Hgroups Hk Hin Htype.
  destruct (transformPlaywrightJson_Ok index groups Hshape Hgroups)
    as (out & Hrun & Hlookup).
  assert (e ∈ nonDocs entries) as Hnd by by apply elem_of_nonDocs.
  exists out. unfold groupProgram in Hlookup.
  specialize (Hlookup titleId). rewrite Hk in Hlookup. simpl in Hlookup.
  destruct (nonDocs entries) as [|story0 rest]; [by apply elem_of_nil in Hnd|].
  by exists (V4Entry.title story0).
Qed.

(** C4: a non-docs entry whose tag set shares a tag with the exclude set
    is not among the stories under test of its group, so the suite
    rendered for the group holds no test case for it; nothing is asked
    of the include set, which the tag set may intersect as well. *)
Theorem exclusion_overrides_inclusion (index : Index)
    (groups : gmap string (list V4Entry.t)) (titleId : string)
    (entries : list V4Entry.t) (e : V4Entry.t) :
  prefixerShape testPrefixer →
  titleIdToEntries Number_toString toId index = Ok groups →
  groups !! titleId = Some entries →
  e ∈ entries → V4Entry.type e ≠ Some Docs →
  (∃ tag, tag ∈ excludeTags opts ∧ tag ∈ tagSet e) →
  ∃ out title,
    transformPlaywrightJson Number_toString toId generate testPrefixer opts index = Ok out
    ∧ out !! titleId
      = Some (generate
                (Program
                   [makeDescribe title
                      (map (storyBlock testPrefixer opts)
                           (storiesUnderTest opts entries))]))
    ∧ e ∉ storiesUnderTest opts entries.
Proof.
  intros Hshape Hgroups Hk Hin Htype (tag & Hex & Htag).
  destruct (group_text index groups titleId entries e) as (out & title & Hrun & Hout);
    try done.
  exists out, title. split_and!; [done | done |].
  intros (_ & _ & _ & Hnot)%elem_of_storiesUnderTest.
  rewrite isNotExcluded_true in Hnot. by apply (Hnot tag).
Qed.

(** C5: a non-docs entry that passes the inclusion and the exclusion
    test and whose tag set shares a tag with the skip set still has its
    block in the suite rendered for its group, and the test case of that
    block is a call of [it.skip]. *)
Theorem skip_marks_but_keeps (index : Index)
    (groups : gmap string (list V4Entry.t)) (titleId : string)
    (entries : list V4Entry.t) (e : V4Entry.t) :
  prefixerShape testPrefixer →
  titleIdToEntries Number_toString toId index = Ok groups →
  groups !! titleId = Some entries →
  e ∈ entries → V4Entry.type e ≠ Some Docs →
  isIncluded opts e = true → isNotExcluded opts e = true →
  (∃ tag, tag ∈ skipTags opts ∧ tag ∈ tagSet e) →
  ∃ out title tests,
    transformPlaywrightJson Number_toString toId generate testPrefixer opts index = Ok out
    ∧ out !! titleId = Some (generate (Program [makeDescribe title tests]))
    ∧ makeDescribe (V4Entry.name e)
        [ExpressionStatement
           (CallExpression (Identifier "it.skip")
              [StringLiteral
                 (if bool_decide ("play-fn" ∈ tagSet e)
                  then "play-test" else "smoke-test");
               testFunction testPrefixer e])]
      ∈ tests.
Proof.
  intros Hshape Hgroups Hk Hin Htype Hincl Hexcl Hskip.
  destruct (group_text index groups titleId entries e) as (out & title & Hrun & Hout);
    try done.
  exists out, title, (map (storyBlock testPrefixer opts)
                          (storiesUnderTest opts entries)).
  split_and!; [done | done |].
  assert (shouldSkip opts e = true) as Hs by by apply some_tags_true.
  assert (e ∈ storiesUnderTest opts entries) as Hmem
    by by apply elem_of_storiesUnderTest.
  apply list_elem_of_In, (in_map (storyBlock testPrefixer opts)) in Hmem.
  apply list_elem_of_In. revert Hmem.
  unfold storyBlock at 1, testCase. by rewrite Hs, play_fn_truthy.
Qed.

(** C7: with an empty include set every entry passes the inclusion
    test; with a non-empty include set an entry passes it exactly when
    its tag set shares a tag with the include set. *)
Theorem inclusion_stage (story : V4Entry.t) :
  (includeTags opts = [] → isIncluded opts story = true)
  ∧ (includeTags opts ≠ [] →
     (isIncluded opts story = true
      ↔ ∃ tag, tag ∈ includeTags opts ∧ tag ∈ tagSet story)).
Proof.
  unfold isIncluded. split.
  - by intros ->.
  - intros Hne. rewrite orb_true_iff, some_tags_true. split; [|by right].
    intros [Hlen|Hsome]; [|done].
    destruct (includeTags opts); [done | discriminate].
Qed.

Lemma makeTest_Ok_inv (story : V4Entry.t) (test : Statement) :
  makeTest testPrefixer story (shouldSkip opts story)
           (tags_includes story "play-fn") = Ok test →
  test = testCase testPrefixer opts story.
Proof.
  unfold makeTest, testCase, testFunction.
  destruct (testPrefixer _ !! 1%nat) as [[expression|body]|]; try discriminate.
  intros [= <-]. by destruct (shouldSkip opts story).
Qed.

(** When the text of a group could be computed, it is the rendering of
    the program of the group. *)
Lemma groupCode_Ok_inv (entries : list V4Entry.t) (code : option string) :
  groupCode generate testPrefixer opts entries = Ok code →
  code = generate <$> groupProgram testPrefixer opts entries.
Proof.
  unfold groupCode, groupProgram.
  destruct (nonDocs entries) as [|story0 rest]; [by intros [= <-]|].
  destruct (mapM _ _) as [tests|] eqn:Htests; simpl; [|discriminate].
  intros [= <-].
  assert (tests = map (storyBlock testPrefixer opts)
                      (storiesUnderTest opts entries)) as ->; [|done].
  eapply mapM_Ok_inv; [|exact Htests].
  intros story block (test & Htest & [= <-])%bind_Ok_inv.
  by rewrite (makeTest_Ok_inv story test Htest).
Qed.

(** What a run that returned stores under a title id. *)
Lemma transformPlaywrightJson_lookup (index : Index)
    (groups : gmap string (list V4Entry.t)) (out : gmap string string)
    (titleId : string) :
  titleIdToEntries Number_toString toId index = Ok groups →
  transformPlaywrightJson Number_toString toId generate testPrefixer opts index
  = Ok out →
  out !! titleId
  = groups !! titleId
      ≫= fun entries => generate <$> groupProgram testPrefixer opts entries.
Proof.
  intros Hgroups Hrun.
  apply transformPlaywrightJson_Ok_inv in Hrun as (groups' & Hg' & Hlookup & Hcode).
  assert (groups' = groups) as -> by congruence.
  rewrite Hlookup. destruct (groups !! titleId) as [entries|] eqn:Hk; [|done].
  simpl. destruct (Hcode titleId entries Hk) as [code Hentries].
  unfold contribution. rewrite Hentries. by apply groupCode_Ok_inv.
Qed.

Lemma elem_of_withTitleId {T : Type} (title : T → string) (titleId : string)
    (entries : list T) (e : T) :
  e ∈ withTitleId toId title titleId entries
  ↔ e ∈ entries ∧ toId (title e) = Ok titleId.
Proof.
  unfold withTitleId.
  by rewrite !list_elem_of_In, filter_In, bool_decide_eq_true.
Qed.

(** C8: in a version-4 index, an entry whose [type] is "docs" is not
    among the stories under test of its group: a run that returns has
    stored for the title id of the entry either nothing or the suite of
    the other entries of the group. *)
Theorem v4_docs_entry_not_tested (index : Index) props (e : V4Entry.t)
    (out : gmap string string) :
  v index = JsNumber 4 →
  entries index = Some props →
  e ∈ map snd props →
  V4Entry.type e = Some Docs →
  transformPlaywrightJson Number_toString toId generate testPrefixer opts index
  = Ok out →
  ∃ titleId,
    toId (V4Entry.title e) = Ok titleId
    ∧ let group := withTitleId toId V4Entry.title titleId (map snd props) in
      e ∈ group
      ∧ (e ∉ storiesUnderTest opts group)
      ∧ (out !! titleId = None
         ∨ ∃ title,
             out !! titleId
             = Some (generate
                       (Program
                          [makeDescribe title
                             (map (storyBlock testPrefixer opts)
                                  (storiesUnderTest opts group))]))).
Proof.
  intros Hv Hprops Hin Hdocs Hrun.
  pose proof Hrun as (groups & Hgroups & _)%transformPlaywrightJson_Ok_inv.
  pose proof (transformPlaywrightJson_lookup index groups out) as Hlookup.
  rewrite (titleIdToEntries_v4 index props Hv Hprops) in Hgroups.
  destruct (toId (V4Entry.title e)) as [titleId|err] eqn:Hid.
  2: { apply groupByTitleId_Ok in Hgroups as [Herr _]. exfalso.
       rewrite groupingError_None in Herr.
       destruct (Herr (V4Entry.title e)) as (titleId & Htitle & _);
         [|congruence].
       apply list_elem_of_In, in_map. by apply list_elem_of_In. }
  exists titleId. split; [done|]. intros group. split_and!.
  - by apply elem_of_withTitleId.
  - by intros (_ & Hne & _)%elem_of_storiesUnderTest.
  - rewrite (Hlookup titleId) by
      (by rewrite ?(titleIdToEntries_v4 index props Hv Hprops)).
    rewrite (groupByTitleId_lookup _ _ _ titleId Hgroups). fold group.
    destruct group as [|e0 rest]; [by left|].
    simpl. unfold groupProgram.
    destruct (nonDocs (e0 :: rest)) as [|story0 more]; [by left|].
    right. by exists (V4Entry.title story0).
Qed.

(** C9: the transformation is deterministic: whatever the order in
    which the groups are enumerated, all runs on one index with one
    value of the tag options end in the same way, with the same mapping
    (same keys, same text under each key) or the same error, which is
    the outcome of [transformPlaywrightJson]. *)
Theorem transformPlaywrightJson_deterministic (index : Index) :
  runs Number_toString toId generate testPrefixer opts index
       (transformPlaywrightJson Number_toString toId generate testPrefixer opts index)
  ∧ ∀ r1 r2,
      runs Number_toString toId generate testPrefixer opts index r1 →
      runs Number_toString toId generate testPrefixer opts index r2 →
      r1 = r2.
Proof.
  split.
  - unfold transformPlaywrightJson.
    destruct (titleIdToEntries Number_toString toId index) as [groups|e] eqn:Hgroups; simpl.
    + by eapply runs_groups.
    + by apply runs_throw.
  - intros r1 r2 [e1 H1|groups1 l1 H1 Hp1] [e2 H2|groups2 l2 H2 Hp2];
      try congruence.
    assert (groups2 = groups1) as -> by congruence.
    apply titleIdToTest_enumeration.
    + rewrite Hp1. apply NoDup_fst_map_to_list.
    + by rewrite Hp1, Hp2.
Qed.


End Properties.

(** ** The properties on concrete indexes *)

Lemma sample_testPrefixer_shape : prefixerShape sample_testPrefixer.
Proof. intros o. eexists. reflexivity. Qed.

Example ToString_5 : ToString sample_Number_toString (JsNumber 5) = Ok "5".
Proof. vm_compute; reflexivity. Qed.
Example ToString_m12 :
  ToString sample_Number_toString (JsNumber (-12)) = Ok "-12".
Proof. vm_compute; reflexivity. Qed.
Example ToString_0 : ToString sample_Number_toString (JsNumber 0) = Ok "0".
Proof. vm_compute; reflexivity. Qed.

(** An array is joined with commas, nested arrays included; [null] gives
    the empty string and a plain object its class name. *)
Example ToString_array :
  ToString sample_Number_toString
    (JsArray [JsNumber 1; JsArray [JsNumber 2; JsNumber 3]; JsNull;
              JsString "x"; JsObject [("a", JsNumber 1)]])
  = Ok "1,2,3,,x,[object Object]".
Proof. vm_compute; reflexivity. Qed.

(** Whatever the template, as long as it has the expected shape: every
    test case of the returned mapping is declared under the name
    "play-test" when the tag set of its story holds "play-fn" and under
    "smoke-test" otherwise. *)
Lemma declared_names (Number_toString : float → string)
    (toId : string → Result string) (generate : Node → string)
    (testPrefixer : Prefixer.t → list Statement)
    (opts : TagOptions) (index : Index)
    (groups : gmap string (list V4Entry.t)) :
  prefixerShape testPrefixer →
  titleIdToEntries Number_toString toId index = Ok groups →
  ∃ out,
    transformPlaywrightJson Number_toString toId generate testPrefixer
                            opts index
    = Ok out
    ∧ (∀ titleId code,
         out !! titleId = Some code →
         ∃ entries title,
           groups !! titleId = Some entries
           ∧ code
             = generate
                 (Program
                    [makeDescribe title
                       (map (fun story =>
                               makeDescribe (V4Entry.name story)
                                 [ExpressionStatement
                                    (CallExpression
                                       (Identifier
                                          (if shouldSkip opts story
                                           then "it.skip" else "it"))
                                       [StringLiteral
                                          (if bool_decide
                                                ("play-fn" ∈ tagSet story)
                                           then "play-test" else "smoke-test");
                                        testFunction testPrefixer story])])
                            (storiesUnderTest opts entries))])).
Proof.
  intros Hshape Hgroups.
  destruct (transformPlaywrightJson_Ok Number_toString toId generate
              testPrefixer opts index groups Hshape Hgroups)
    as (out & Hrun & Hlookup).
  exists out. split; [done|].
  intros titleId code Hcode. rewrite Hlookup in Hcode.
  destruct (groups !! titleId) as [entries|]; [|done]. simpl in Hcode.
  unfold groupProgram in Hcode.
  destruct (nonDocs entries) as [|story0 rest]; [done|].
  exists entries, (V4Entry.title story0). split; [done|].
  injection Hcode as <-.
  erewrite map_ext; [reflexivity|]. intros story. simpl.
  unfold storyBlock, testCase. by rewrite play_fn_truthy.
Qed.

(** C6: every test case of the returned mapping is declared under the
    name "play-test" when the tag set of its story holds "play-fn" and
    under "smoke-test" otherwise; with the template as the
    specification describes it, the body of the test case holds the
    name, the title and the id of the story as string literals. *)
Theorem test_case_name_and_body (Number_toString : float → string)
    (toId : string → Result string) (generate : Node → string)
    (opts : TagOptions) (index : Index)
    (groups : gmap string (list V4Entry.t)) :
  titleIdToEntries Number_toString toId index = Ok groups →
  ∃ out,
    transformPlaywrightJson Number_toString toId generate sample_testPrefixer
                            opts index
    = Ok out
    ∧ (∀ titleId code,
         out !! titleId = Some code →
         ∃ entries title,
           groups !! titleId = Some entries
           ∧ code
             = generate
                 (Program
                    [makeDescribe title
                       (map (fun story =>
                               makeDescribe (V4Entry.name story)
                                 [ExpressionStatement
                                    (CallExpression
                                       (Identifier
                                          (if shouldSkip opts story
                                           then "it.skip" else "it"))
                                       [StringLiteral
                                          (if bool_decide
                                                ("play-fn" ∈ tagSet story)
                                           then "play-test" else "smoke-test");
                                        testFunction sample_testPrefixer
                                                     story])])
                            (storiesUnderTest opts entries))]))
    ∧ (∀ story,
         mentionsLiteral (V4Entry.name story)
                         (testFunction sample_testPrefixer story) = true
         ∧ mentionsLiteral (V4Entry.title story)
                           (testFunction sample_testPrefixer story) = true
         ∧ mentionsLiteral (V4Entry.id story)
                           (testFunction sample_testPrefixer story) = true).
Proof.
  intros Hgroups.
  destruct (declared_names Number_toString toId generate sample_testPrefixer
              opts index groups sample_testPrefixer_shape Hgroups)
    as (out & Hrun & Hnames).
  exists out. split_and!; [done | exact Hnames |].
  intros story. unfold testFunction, sample_testPrefixer.
  simpl. rewrite !String.eqb_refl, !orb_true_r. done.
Qed.

(** The comparison [index.v === 3] is strict: the string "3" is not a
    supported version. *)
Example string_version_rejected :
  sample_transform no_tags
    {| v := JsString "3"; stories := Some []; entries := Some [] |}
  = Throw (Error "Unsupported version 3").
Proof. vm_compute; reflexivity. Qed.

(** A version-3 index without its [stories] bag: [Object.values]
    throws. *)
Example missing_stories_throws :
  sample_transform no_tags
    {| v := JsNumber 3; stories := None; entries := Some [] |}
  = Throw TypeError.
Proof. vm_compute; reflexivity. Qed.

(** The first example scenario of the specification: no tag option. *)
Example button_index_no_tags :
  ∃ out,
    sample_transform no_tags button_index = Ok out
    ∧ map_to_list out
      = [("button",
          "describe('Button', () => {"
          +:+ "describe('Primary', () => {it('play-test', () => {"
          +:+ "testFn({id: 'a', title: 'Button', name: 'Primary'});});}); "
          +:+ "describe('Secondary', () => {it('smoke-test', () => {"
          +:+ "testFn({id: 'b', title: 'Button', name: 'Secondary'});});});"
          +:+ "});")].
Proof. eexists. split; [vm_compute; reflexivity | vm_compute; reflexivity]. Qed.

(** The second example scenario: "play-fn" is excluded. *)
Example button_index_exclude_play :
  ∃ out,
    sample_transform exclude_play button_index = Ok out
    ∧ map_to_list out
      = [("button",
          "describe('Button', () => {"
          +:+ "describe('Secondary', () => {it('smoke-test', () => {"
          +:+ "testFn({id: 'b', title: 'Button', name: 'Secondary'});});});"
          +:+ "});")].
Proof. eexists. split; [vm_compute; reflexivity | vm_compute; reflexivity]. Qed.

(** C1 fails as stated: the only entry of the group "button" of
    [primary_index] is filtered out by the exclude set, no story of the
    group is under test, and yet the mapping has the key "button", with
    a suite that holds no block. *)
Lemma tag_filtered_group_keeps_key :
  ∃ groups out,
    titleIdToEntries sample_Number_toString sample_toId primary_index = Ok groups
    ∧ groups !! "button" = Some [primary]
    ∧ storiesUnderTest exclude_play [primary] = []
    ∧ sample_transform exclude_play primary_index = Ok out
    ∧ out !! "button" = Some "describe('Button', () => {});".
Proof.
  do 2 eexists. split_and!; vm_compute; reflexivity.
Qed.

Lemma docs_only_group_omitted_witness :
  ∃ out,
    sample_transform no_tags docs_index = Ok out
    ∧ out !! "intro" = None.
Proof.
  eexists. split; [vm_compute; reflexivity|].
  eapply (docs_only_group_omitted sample_Number_toString sample_toId sample_generate
            sample_testPrefixer no_tags docs_index _ "intro" [intro_docs]).
  - vm_compute; reflexivity.
  - vm_compute; reflexivity.
  - intros e ->%list_elem_of_singleton. reflexivity.
  - vm_compute; reflexivity.
Defined.



Lemma v3_page_group_is_docs_only_witness :
  ∃ groups,
    titleIdToEntries sample_Number_toString sample_toId v3_index = Ok groups
    ∧ groups !! "introduction"
      = Some [{| V4Entry.type := Some Docs;
                 V4Entry.id := "introduction--page";
                 V4Entry.name := "Page";
                 V4Entry.title := "Introduction";
                 V4Entry.tags := Some ["test"] |}]
    ∧ ∀ out,
        sample_transform include_test v3_index = Ok out →
        out !! "introduction" = None.
Proof.
  eexists. split; [vm_compute; reflexivity|].
  eapply (v3_page_group_is_docs_only sample_Number_toString sample_toId
            sample_generate sample_testPrefixer include_test v3_index _ _
            "introduction" page_story); vm_compute; reflexivity.
Defined.

Lemma exclusion_overrides_inclusion_witness :
  ∃ out title,
    sample_transform include_and_exclude_play button_index = Ok out
    ∧ out !! "button"
      = Some (sample_generate
                (Program
                   [makeDescribe title
                      (map (storyBlock sample_testPrefixer include_and_exclude_play)
                           (storiesUnderTest include_and_exclude_play
                                             [primary; secondary]))]))
    ∧ primary ∉ storiesUnderTest include_and_exclude_play [primary; secondary].
Proof.
  eapply (exclusion_overrides_inclusion sample_Number_toString sample_toId sample_generate
            sample_testPrefixer include_and_exclude_play button_index _
            "button" [primary; secondary] primary).
  - apply sample_testPrefixer_shape.
  - vm_compute; reflexivity.
  - vm_compute; reflexivity.
  - left.
  - discriminate.
  - exists "play-fn". split; left.
Defined.

Lemma skip_marks_but_keeps_witness :
  ∃ out title tests,
    sample_transform skip_play button_index = Ok out
    ∧ out !! "button"
      = Some (sample_generate (Program [makeDescribe title tests]))
    ∧ makeDescribe "Primary"
        [ExpressionStatement
           (CallExpression (Identifier "it.skip")
              [StringLiteral "play-test";
               testFunction sample_testPrefixer primary])]
      ∈ tests.
Proof.
  eapply (skip_marks_but_keeps sample_Number_toString sample_toId sample_generate sample_testPrefixer
            skip_play button_index _ "button" [primary; secondary] primary).
  - apply sample_testPrefixer_shape.
  - vm_compute; reflexivity.
  - vm_compute; reflexivity.
  - left.
  - discriminate.
  - vm_compute; reflexivity.
  - vm_compute; reflexivity.
  - exists "play-fn". split; left.
Defined.

Lemma test_case_name_and_body_witness :
  ∃ out,
    sample_transform no_tags button_index = Ok out
    ∧ mentionsLiteral "Primary" (testFunction sample_testPrefixer primary) = true
    ∧ mentionsLiteral "Button" (testFunction sample_testPrefixer primary) = true
    ∧ mentionsLiteral "a" (testFunction sample_testPrefixer primary) = true.
Proof.
  eassert (titleIdToEntries sample_Number_toString sample_toId button_index
           = Ok _) as Hgroups by (vm_compute; reflexivity).
  destruct (test_case_name_and_body sample_Number_toString sample_toId
              sample_generate no_tags button_index _ Hgroups)
    as (out & Hrun & _ & Hbody).
  exists out. split; [exact Hrun | exact (Hbody primary)].
Defined.

Lemma v4_docs_entry_not_tested_witness :
  ∃ out,
    sample_transform no_tags docs_index = Ok out
    ∧ ∃ titleId,
        sample_toId "Button" = Ok titleId
        ∧ let group :=
            withTitleId sample_toId V4Entry.title titleId
                        [primary; button_docs; intro_docs] in
          button_docs ∈ group
          ∧ (button_docs ∉ storiesUnderTest no_tags group)
          ∧ (out !! titleId = None
             ∨ ∃ title,
                 out !! titleId
                 = Some (sample_generate
                           (Program
                              [makeDescribe title
                                 (map (storyBlock sample_testPrefixer no_tags)
                                      (storiesUnderTest no_tags group))]))).
Proof.
  eexists. split; [vm_compute; reflexivity|].
  apply (v4_docs_entry_not_tested sample_Number_toString sample_toId
           sample_generate sample_testPrefixer no_tags docs_index
           [("a", primary); ("d", button_docs); ("e", intro_docs)] button_docs).
  - reflexivity.
  - reflexivity.
  - right. left.
  - reflexivity.
  - vm_compute; reflexivity.
Defined.


(** ** Further properties of the transformer *)

Lemma concat_snd_Permutation {K A : Type} (l1 l2 : list (K * list A)) :
  l1 ≡ₚ l2 → concat l1.*2 ≡ₚ concat l2.*2.
Proof.
  induction 1 as [|x l1 l2 _ IH|x y l|l1 l2 l3 _ IH1 _ IH2]; simpl.
  - done.
  - by rewrite IH.
  - rewrite !app_assoc. f_equiv. apply Permutation_app_comm.
  - by rewrite IH1.
Qed.

Lemma filter_map_commute {A B : Type} (f : A → B) (p : B → bool) (l : list A) :
  List.filter p (map f l) = map f (List.filter (fun x => p (f x)) l).
Proof.
  induction l as [|x l IH]; simpl; [done|].
  destruct (p (f x)); simpl; by rewrite IH.
Qed.

Lemma filter_sublist {A : Type} (f g : A → bool) (l : list A) :
  (∀ x, x ∈ l → f x = true → g x = true) →
  sublist (List.filter f l) (List.filter g l).
Proof.
  induction l as [|x l IH]; intros Hfg; simpl; [constructor|].
  assert (sublist (List.filter f l) (List.filter g l)) as Hrec.
  { apply IH. intros y Hy. apply Hfg. by right. }
  destruct (f x) eqn:Hf.
  - rewrite (Hfg x) by (done || left). by constructor.
  - destruct (g x); [by constructor | done].
Qed.

Section MoreProperties.

Variable Number_toString : float → string.
Variable toId : string → Result string.
Variable generate : Node → string.
Variable testPrefixer : Prefixer.t → list Statement.
Variable opts : TagOptions.

(** The entries of the groups, put end to end, after the reduction of
    [groupByTitleId] from any accumulator. *)
Lemma groupByTitleId_reduce_Permutation {T : Type} (title : T → string)
    (entries : list T) (acc groups : gmap string (list T)) :
  reduceM (fun acc entry =>
             titleId ←! toId (title entry);
             match acc !! titleId with
             | Some arr =>
                 Ok (alter (fun arr => arr ++ [entry]) titleId
                           (<[titleId := arr]> acc))
             | None =>
                 if inherited titleId then Throw TypeError
                 else
                   Ok (alter (fun arr => arr ++ [entry]) titleId
                             (<[titleId := []]> acc))
             end)
          entries acc
  = Ok groups →
  concat (map_to_list groups).*2 ≡ₚ concat (map_to_list acc).*2 ++ entries.
Proof.
  revert acc. induction entries as [|entry entries IH]; intros acc.
  - simpl. intros [= <-]. by rewrite app_nil_r.
  - cbn [reduceM]. destruct (toId (title entry)) as [k|] eqn:Hk; cbn [bind];
      [|discriminate].
    change (entry :: entries) with ([entry] ++ entries).
    rewrite app_assoc.
    destruct (acc !! k) as [old|] eqn:Hlook.
    + rewrite groupByTitleId_push. cbn [bind]. intros ->%IH. f_equiv.
      rewrite <- insert_delete_eq.
      rewrite (concat_snd_Permutation _ _
                 (map_to_list_insert (delete k acc) k (old ++ [entry])
                    (lookup_delete_eq acc k))).
      rewrite <- (concat_snd_Permutation _ _ (map_to_list_delete acc k old Hlook)).
      simpl. rewrite <- !app_assoc. f_equiv. apply Permutation_app_comm.
    + destruct (inherited k); [discriminate|].
      rewrite groupByTitleId_push. cbn [bind]. intros ->%IH. f_equiv.
      rewrite (concat_snd_Permutation _ _
                 (map_to_list_insert acc k ([] ++ [entry]) Hlook)).
      simpl. apply Permutation_cons_append.
Qed.

(** X2: when [groupByTitleId] returns, its groups hold every entry of the
    list once: put end to end, they are a permutation of the list. *)
Theorem groupByTitleId_partition {T : Type} (title : T → string)
    (entries : list T) (groups : gmap string (list T)) :
  groupByTitleId toId title entries = Ok groups →
  concat (map_to_list groups).*2 ≡ₚ entries.
Proof.
  unfold groupByTitleId. intros ->%groupByTitleId_reduce_Permutation.
  by rewrite map_to_list_empty.
Qed.

(** X1: when [groupByTitleId] returns, the group of a title id is the list
    of the entries with that title id, in the order of the index; a
    title id that no entry has is no key, so no group is empty, and the
    title id of every entry is a key. *)
Theorem groupByTitleId_groups {T : Type} (title : T → string)
    (entries : list T) (groups : gmap string (list T)) (titleId : string) :
  groupByTitleId toId title entries = Ok groups →
  (∀ group,
     groups !! titleId = Some group
     ↔ group = withTitleId toId title titleId entries ∧ group ≠ [])
  ∧ (groups !! titleId = None
     ↔ ∀ entry, entry ∈ entries → toId (title entry) ≠ Ok titleId).
Proof.
  intros Hgroups.
  rewrite (groupByTitleId_lookup toId title entries groups titleId Hgroups).
  split.
  - intros group. destruct (withTitleId _ _ _ _) as [|e rest]; split.
    + discriminate.
    + by intros [-> ?].
    + by intros [= <-].
    + by intros [-> _].
  - destruct (withTitleId toId title titleId entries) as [|e rest] eqn:Hfilter;
      split.
    + intros _ entry Hin Heq.
      assert (entry ∈ withTitleId toId title titleId entries) as Hmem
        by by apply elem_of_withTitleId.
      rewrite Hfilter in Hmem. by apply elem_of_nil in Hmem.
    + done.
    + discriminate.
    + intros Hnone. exfalso.
      assert (e ∈ withTitleId toId title titleId entries)
        as [Hin Heq]%elem_of_withTitleId by (rewrite Hfilter; left).
      by apply (Hnone e).
Qed.

Lemma withTitleId_map {A B : Type} (titleA : A → string) (titleB : B → string)
    (f : A → B) (titleId : string) (l : list A) :
  (∀ x, titleB (f x) = titleA x) →
  withTitleId toId titleB titleId (map f l)
  = map f (withTitleId toId titleA titleId l).
Proof.
  intros Htitle. unfold withTitleId. rewrite filter_map_commute. f_equal.
  induction l as [|x l IH]; simpl; [done|]. by rewrite Htitle, IH.
Qed.

Lemma withTitleId_title (titleId : string) (stories : list V3Story.t)
    (s : V3Story.t) :
  s ∈ withTitleId toId V3Story.title titleId stories →
  toId (V3Story.title s) = Ok titleId.
Proof. by intros [_ ?]%elem_of_withTitleId. Qed.

(** Grouping the images of the entries under a function that keeps the
    titles: the same exception, or the images of the groups. *)
Lemma groupByTitleId_map {A B : Type} (titleA : A → string) (titleB : B → string)
    (f : A → B) (l : list A) :
  (∀ x, titleB (f x) = titleA x) →
  groupByTitleId toId titleB (map f l)
  = (groups ←! groupByTitleId toId titleA l; Ok (map f <$> groups)).
Proof.
  intros Htitle.
  assert (map titleB (map f l) = map titleA l) as Htitles.
  { rewrite map_map. by apply map_ext. }
  destruct (groupByTitleId toId titleA l) as [groups|e] eqn:HA; simpl.
  - destruct (groupByTitleId toId titleB (map f l)) as [groups'|e'] eqn:HB.
    + f_equal. apply map_eq. intros k. rewrite lookup_fmap.
      rewrite (groupByTitleId_lookup toId titleA l groups k HA).
      rewrite (groupByTitleId_lookup toId titleB (map f l) groups' k HB).
      rewrite (withTitleId_map titleA titleB) by done.
      by destruct (withTitleId toId titleA k l).
    + apply groupByTitleId_Throw in HB. apply groupByTitleId_Ok in HA as [HA _].
      congruence.
  - apply groupByTitleId_Throw. rewrite Htitles. by apply groupByTitleId_Throw.
Qed.

(** The groups of a v3 index, after [v3TitleMapToV4TitleMap], are the
    groups of the v4 entries its stories stand for. *)
Lemma v3_groups_as_v4 (props : list (string * V3Story.t)) :
  (titleIdToStories ←! groupByTitleId toId V3Story.title (map snd props);
   Ok (v3TitleMapToV4TitleMap titleIdToStories))
  = groupByTitleId toId V4Entry.title
      (map snd
         (map (fun '(id, story) =>
                 (id,
                  v3StoryToV4Entry
                    (match toId (V3Story.title story) with
                     | Ok titleId =>
                         isV3DocsOnly
                           (withTitleId toId V3Story.title titleId
                                        (map snd props))
                     | Throw _ => false
                     end)
                    story))
              props)).
Proof.
  set (ss := map snd props).
  set (conv := fun s => v3StoryToV4Entry
                          (match toId (V3Story.title s) with
                           | Ok titleId =>
                               isV3DocsOnly
                                 (withTitleId toId V3Story.title titleId ss)
                           | Throw _ => false
                           end) s).
  rewrite map_map.
  rewrite (map_ext _ (fun p => conv p.2)) by by intros [].
  rewrite <- (map_map snd conv). fold ss.
  rewrite (groupByTitleId_map V3Story.title V4Entry.title conv ss) by done.
  destruct (groupByTitleId toId V3Story.title ss) as [groups|e] eqn:Hgroups;
    simpl; [|done].
  f_equal. apply map_eq. intros k.
  rewrite v3TitleMapToV4TitleMap_lookup, lookup_fmap.
  rewrite (groupByTitleId_lookup toId V3Story.title ss groups k Hgroups).
  destruct (withTitleId toId V3Story.title k ss) as [|s0 rest] eqn:Hgroup;
    [done|].
  cbn [fmap option_fmap option_map]. f_equal. rewrite <- Hgroup.
  unfold v3StoriesToV4Entries. symmetry. apply map_ext_in. intros s Hs.
  apply list_elem_of_In, withTitleId_title in Hs. unfold conv.
  by rewrite Hs.
Qed.

(** X3: a version-3 index is transformed as the version-4 index that holds
    the same stories, each with the type "docs" when it is the only
    story of its title group and is named "Page", and with the type
    "story" otherwise. *)
Theorem v3_index_as_v4 (index : Index) :
  v index = JsNumber 3 →
  transformPlaywrightJson Number_toString toId generate testPrefixer opts index
  = transformPlaywrightJson Number_toString toId generate testPrefixer opts
                            (v3AsV4 toId index).
Proof.
  intros Hv. unfold transformPlaywrightJson. f_equal.
  destruct (stories index) as [props|] eqn:Hprops.
  - rewrite (titleIdToEntries_v3 Number_toString toId index props Hv Hprops).
    rewrite (titleIdToEntries_v4 Number_toString toId (v3AsV4 toId index) _
               eq_refl ltac:(unfold v3AsV4; simpl; by rewrite Hprops)).
    by rewrite v3_groups_as_v4.
  - unfold titleIdToEntries, v3AsV4. rewrite Hv, Hprops. done.
Qed.

Lemma isV3DocsOnly_map (f : V3Story.t → V3Story.t) (stories : list V3Story.t) :
  (∀ s, V3Story.name (f s) = V3Story.name s) →
  isV3DocsOnly (map f stories) = isV3DocsOnly stories.
Proof.
  intros Hname. unfold isV3DocsOnly. rewrite length_map.
  destruct stories as [|s rest]; simpl; [done|]. by rewrite Hname.
Qed.

(** X4: the [parameters] of the v3 stories are never read: an index gives
    the same result with and without them. *)
Theorem parameters_ignored (index : Index) :
  transformPlaywrightJson Number_toString toId generate testPrefixer opts
                          (eraseParameters index)
  = transformPlaywrightJson Number_toString toId generate testPrefixer opts index.
Proof.
  unfold transformPlaywrightJson. f_equal.
  unfold titleIdToEntries, eraseParameters. simpl.
  destruct (strict_eq_number (v index) 3); [|done].
  destruct (stories index) as [props|]; simpl; [|done].
  set (erase := fun story =>
                  {| V3Story.id := V3Story.id story;
                     V3Story.name := V3Story.name story;
                     V3Story.title := V3Story.title story;
                     V3Story.tags := V3Story.tags story;
                     V3Story.parameters := None |}).
  rewrite map_map.
  rewrite (map_ext _ (fun p => erase p.2)) by by intros [].
  rewrite <- (map_map snd erase).
  rewrite (groupByTitleId_map V3Story.title V3Story.title erase) by done.
  destruct (groupByTitleId toId V3Story.title (map snd props)) as [groups|e];
    simpl; [|done].
  f_equal. apply map_eq. intros k.
  rewrite !v3TitleMapToV4TitleMap_lookup, lookup_fmap.
  destruct (groups !! k) as [g|]; simpl; [|done]. f_equal.
  unfold v3StoriesToV4Entries.
  rewrite (isV3DocsOnly_map erase g) by done. by rewrite map_map.
Qed.

(** The exceptions of the version dispatch. *)
Lemma titleIdToEntries_Throw (index : Index) (e : JsError) :
  titleIdToEntries Number_toString toId index = Throw e →
  e = TypeError
  ∨ (strict_eq_number (v index) 3 = false
     ∧ strict_eq_number (v index) 4 = false
     ∧ ∃ version,
         ToString Number_toString (v index) = Ok version
         ∧ e = Error ("Unsupported version " +:+ version))
  ∨ ((strict_eq_number (v index) 3 = true
      ∨ strict_eq_number (v index) 4 = true)
     ∧ ∃ title, toId title = Throw e).
Proof.
  unfold titleIdToEntries.
  destruct (strict_eq_number (v index) 3) eqn:H3.
  { destruct (stories index) as [props|]; simpl; [|by intros [= <-]; left].
    destruct (groupByTitleId _ _ _) as [groups|e'] eqn:Hgroups; simpl;
      [discriminate|].
    intros [= ->].
    apply groupByTitleId_Throw, groupingError_Some in Hgroups
      as (title & _ & [Hthrow | [-> _]]); [|by left].
    right. right. split; [by left | by exists title]. }
  destruct (strict_eq_number (v index) 4) eqn:H4.
  { destruct (entries index) as [props|]; simpl; [|by intros [= <-]; left].
    intros (title & _ & [Hthrow | [-> _]])%groupByTitleId_Throw%groupingError_Some;
      [|by left].
    right. right. split; [by right | by exists title]. }
  destruct (ToString Number_toString (v index)) as [version|e'] eqn:Hversion;
    simpl; intros [= <-].
  - right. left. split_and!; [done | done |]. by exists version.
  - left. by eapply ToString_Throw.
Qed.

(** X5: with a template of the expected shape, [transformPlaywrightJson]
    returns a mapping exactly when the index has version 3 and a
    [stories] bag, or version 4 and an [entries] bag, and [toId] returns,
    on the title of every entry of that bag, a title id that names no
    member of [Object.prototype]; the bag of the other version is not
    looked at. *)
Theorem transformPlaywrightJson_returns (index : Index) :
  prefixerShape testPrefixer →
  let groupable (titles : list string) :=
    ∀ title, title ∈ titles →
             ∃ titleId, toId title = Ok titleId ∧ inherited titleId = false in
  (∃ out,
     transformPlaywrightJson Number_toString toId generate testPrefixer opts index
     = Ok out)
  ↔ (strict_eq_number (v index) 3 = true
     ∧ ∃ props, stories index = Some props
                ∧ groupable (map V3Story.title (map snd props)))
    ∨ (strict_eq_number (v index) 3 = false
       ∧ strict_eq_number (v index) 4 = true
       ∧ ∃ props, entries index = Some props
                  ∧ groupable (map V4Entry.title (map snd props))).
Proof.
  intros Hshape groupable.
  assert ((∃ out,
             transformPlaywrightJson Number_toString toId generate testPrefixer
                                     opts index = Ok out)
          ↔ ∃ groups, titleIdToEntries Number_toString toId index = Ok groups)
    as ->.
  { split.
    - intros [out (groups & Hgroups & _)%transformPlaywrightJson_Ok_inv].
      by exists groups.
    - intros [groups Hgroups].
      destruct (transformPlaywrightJson_Ok Number_toString toId generate
                  testPrefixer opts index groups Hshape Hgroups)
        as (out & Hrun & _).
      by exists out. }
  assert (∀ (T : Type) (title : T → string) (l : list T),
            (∃ groups, groupByTitleId toId title l = Ok groups)
            ↔ groupable (map title l)) as Hgroupable.
  { intros T title l. unfold groupable. rewrite <- groupingError_None. split.
    - intros [groups Hgroups]. by apply groupByTitleId_Ok in Hgroups as [? _].
    - intros Hnone.
      destruct (groupByTitleId toId title l) as [groups|e] eqn:Hgroups;
        [by eauto|].
      apply groupByTitleId_Throw in Hgroups. congruence. }
  unfold titleIdToEntries.
  destruct (strict_eq_number (v index) 3) eqn:H3.
  { destruct (stories index) as [props|]; simpl.
    - split.
      + intros [groups Hgroups]. left. split; [done|]. exists props.
        split; [done|]. apply Hgroupable.
        destruct (groupByTitleId _ _ _) as [g|]; [by eauto | discriminate].
      + intros [(_ & props' & [= <-] & [g Hg]%Hgroupable) | (? & _)];
          [|discriminate].
        rewrite Hg. simpl. by eauto.
    - split; [by intros [? ?] |].
      intros [(_ & ? & ? & _) | (? & _)]; discriminate. }
  destruct (strict_eq_number (v index) 4) eqn:H4.
  { destruct (entries index) as [props|]; simpl.
    - split.
      + intros Hgroups. right. split_and!; [done | done |]. exists props.
        split; [done|]. by apply Hgroupable.
      + intros [(? & _) | (_ & _ & props' & [= <-] & Hg%Hgroupable)];
          [discriminate | done].
    - split; [by intros [? ?] |].
      intros [(? & _) | (_ & _ & ? & ? & _)]; discriminate. }
  split.
  - intros [groups Hgroups].
    destruct (ToString Number_toString (v index)); discriminate.
  - intros [(? & _) | (_ & ? & _)]; discriminate.
Qed.

(** X6: [transformPlaywrightJson] throws three kinds of exceptions only: a
    [TypeError]; the error about the unsupported version, when the
    discriminant is neither 3 nor 4 and could be converted to a string;
    and, when the discriminant is 3 or 4, an exception that [toId] throws
    on a title. *)
Theorem transformPlaywrightJson_throws (index : Index) (e : JsError) :
  transformPlaywrightJson Number_toString toId generate testPrefixer opts index
  = Throw e →
  e = TypeError
  ∨ (strict_eq_number (v index) 3 = false
     ∧ strict_eq_number (v index) 4 = false
     ∧ ∃ version,
         ToString Number_toString (v index) = Ok version
         ∧ e = Error ("Unsupported version " +:+ version))
  ∨ ((strict_eq_number (v index) 3 = true
      ∨ strict_eq_number (v index) 4 = true)
     ∧ ∃ title, toId title = Throw e).
Proof.
  unfold transformPlaywrightJson.
  destruct (titleIdToEntries Number_toString toId index) as [groups|e']
    eqn:Hgroups; simpl.
  - intros Hrun. left. rewrite titleIdToTest_storeGroup in Hrun.
    pose proof (reduceM_storeGroup generate testPrefixer opts
                  (map_to_list groups) ∅ (NoDup_fst_map_to_list groups))
      as Hspec.
    rewrite Hrun in Hspec. by destruct Hspec.
  - intros [= <-]. by apply titleIdToEntries_Throw.
Qed.

(** The text stored for a title id by a run on a version-4 index. *)
Lemma v4_lookup (index : Index) props (out : gmap string string)
    (titleId : string) :
  v index = JsNumber 4 →
  entries index = Some props →
  transformPlaywrightJson Number_toString toId generate testPrefixer opts index
  = Ok out →
  out !! titleId
  = generate <$> groupProgram testPrefixer opts
                   (withTitleId toId V4Entry.title titleId (map snd props)).
Proof.
  intros Hv Hprops Hrun.
  pose proof Hrun as (groups & Hgroups & _)%transformPlaywrightJson_Ok_inv.
  rewrite (transformPlaywrightJson_lookup Number_toString toId generate
             testPrefixer opts index groups out titleId Hgroups Hrun).
  rewrite (titleIdToEntries_v4 Number_toString toId index props Hv Hprops)
    in Hgroups.
  rewrite (groupByTitleId_lookup toId V4Entry.title (map snd props) groups
             titleId Hgroups).
  by destruct (withTitleId _ _ _ _).
Qed.

(** X7: the keys of the mapping returned by a run on a version-4 index are
    the title ids of the entries that are not docs entries; the tag
    options have no part in it. *)
Theorem v4_output_keys (index : Index) props (out : gmap string string) :
  v index = JsNumber 4 →
  entries index = Some props →
  transformPlaywrightJson Number_toString toId generate testPrefixer opts index
  = Ok out →
  ∀ titleId,
    is_Some (out !! titleId)
    ↔ ∃ e, e ∈ map snd props
           ∧ toId (V4Entry.title e) = Ok titleId
           ∧ V4Entry.type e ≠ Some Docs.
Proof.
  intros Hv Hprops Hrun titleId.
  rewrite (v4_lookup index props out titleId Hv Hprops Hrun).
  set (group := withTitleId toId V4Entry.title titleId (map snd props)).
  assert (is_Some (generate <$> groupProgram testPrefixer opts group)
          ↔ ∃ e, e ∈ nonDocs group) as Hsome.
  { unfold groupProgram. destruct (nonDocs group) as [|e rest]; simpl.
    - split; [by intros [? ?] | by intros [? ?%elem_of_nil]].
    - split; [intros _; exists e; left | by eauto]. }
  assert ((∃ e, e ∈ nonDocs group)
          ↔ ∃ e, e ∈ map snd props ∧ toId (V4Entry.title e) = Ok titleId
                 ∧ V4Entry.type e ≠ Some Docs) as Hmem.
  { split; intros [e He]; exists e; revert He;
      rewrite elem_of_nonDocs; unfold group; rewrite elem_of_withTitleId;
      tauto. }
  by rewrite <- Hmem, <- Hsome.
Qed.

(** X8: the suite that a run on a version-4 index has stored for a title
    id has the title of the first entry of the group that is not a docs
    entry, whether the tag options keep that entry or not, and one block
    for each story under test, in the order of the index. *)
Theorem v4_suite (index : Index) props (out : gmap string string)
    (titleId : string) (first : V4Entry.t) (others : list V4Entry.t) :
  v index = JsNumber 4 →
  entries index = Some props →
  transformPlaywrightJson Number_toString toId generate testPrefixer opts index
  = Ok out →
  nonDocs (withTitleId toId V4Entry.title titleId (map snd props))
  = first :: others →
  out !! titleId
  = Some (generate
            (Program
               [makeDescribe (V4Entry.title first)
                  (map (storyBlock testPrefixer opts)
                       (storiesUnderTest opts
                          (withTitleId toId V4Entry.title titleId
                                       (map snd props))))])).
Proof.
  intros Hv Hprops Hrun Hfirst.
  rewrite (v4_lookup index props out titleId Hv Hprops Hrun).
  unfold groupProgram. by rewrite Hfirst.
Qed.

End MoreProperties.

(** X9: tag options that include more and exclude less put a superset of
    the stories under test: the stories under the stricter options are
    a sublist of the stories under the laxer ones.  An empty include
    list is the laxest. *)
Theorem laxer_options_test_more (lax strict : TagOptions)
    (entries : list V4Entry.t) :
  includeTags lax = [] ∨ (includeTags strict ≠ []
                          ∧ includeTags strict ⊆ includeTags lax) →
  excludeTags lax ⊆ excludeTags strict →
  sublist (storiesUnderTest strict entries) (storiesUnderTest lax entries).
Proof.
  intros Hinclude Hexclude. unfold storiesUnderTest.
  apply filter_sublist. intros story _ [Hin Hex]%andb_true_iff.
  apply andb_true_iff. split.
  - unfold isIncluded in *. destruct Hinclude as [-> | [Hne Hsub]]; [done|].
    apply orb_true_iff in Hin as [Hlen | Hsome].
    { destruct (includeTags strict); [done | discriminate]. }
    apply orb_true_iff. right.
    apply some_tags_true in Hsome as (tag & Htag & Hstory).
    apply some_tags_true. exists tag. split; [by apply Hsub | done].
  - apply isNotExcluded_true. intros tag Htag.
    rewrite isNotExcluded_true in Hex. by apply Hex, Hexclude.
Qed.

(** X15: [getExecutorCommand] never throws: it returns one of five commands,
    and a command other than [npx] only when the package manager was
    detected as pnpm or yarn, its version was read and the version was
    compared. *)
Theorem getExecutorCommand_returns (detectPackageManager : Result PM)
    (getPackageManagerVersion : PM → Result string)
    (semver_gte : string → string → Result bool) :
  ∃ command,
    getExecutorCommand detectPackageManager getPackageManagerVersion semver_gte
    = Ok command
    ∧ command ∈ ["npx"; "pnpm exec"; "pnpx"; "yarn exec"; "yarn"]
    ∧ (command ≠ "npx" →
       ∃ pm version minimum useNew,
         detectPackageManager = Ok pm
         ∧ (pm = Pnpm ∧ minimum = "6.13.0" ∨ pm = Yarn ∧ minimum = "2.0.0")
         ∧ getPackageManagerVersion pm = Ok version
         ∧ semver_gte version minimum = Ok useNew).
Proof.
  unfold getExecutorCommand.
  destruct detectPackageManager as [[| | |]|e]; simpl.
  1, 4, 5: exists "npx"; split_and!; [done | set_solver | done].
  - destruct (getPackageManagerVersion Pnpm) as [version|] eqn:Hversion; simpl.
    2: exists "npx"; split_and!; [done | set_solver | done].
    destruct (semver_gte version "6.13.0") as [[|]|] eqn:Hgte; simpl.
    3: exists "npx"; split_and!; [done | set_solver | done].
    + exists "pnpm exec". split_and!; [done | set_solver |].
      intros _. exists Pnpm, version, "6.13.0", true. by auto.
    + exists "pnpx". split_and!; [done | set_solver |].
      intros _. exists Pnpm, version, "6.13.0", false. by auto.
  - destruct (getPackageManagerVersion Yarn) as [version|] eqn:Hversion; simpl.
    2: exists "npx"; split_and!; [done | set_solver | done].
    destruct (semver_gte version "2.0.0") as [[|]|] eqn:Hgte; simpl.
    3: exists "npx"; split_and!; [done | set_solver | done].
    + exists "yarn exec". split_and!; [done | set_solver |].
      intros _. exists Yarn, version, "2.0.0", true. by auto.
    + exists "yarn". split_and!; [done | set_solver |].
      intros _. exists Yarn, version, "2.0.0", false. by auto.
Qed.


(** ** Properties of [sanitizeURL] *)

#[local] Arguments String.append : simpl nomatch.

Lemma afterLiteral_Some (lit s rest : string) :
  afterLiteral lit s = Some rest ↔ s = lit +:+ rest.
Proof.
  revert s. induction lit as [|a lit IH]; intros s; simpl.
  - split; congruence.
  - destruct s as [|b s]; [split; discriminate|].
    destruct (Ascii.eqb_spec a b) as [->|Hne].
    + rewrite IH. split; congruence.
    + split; [discriminate | congruence].
Qed.

Lemma prefix_true (needle s : string) :
  String.prefix needle s = true ↔ ∃ rest, s = needle +:+ rest.
Proof.
  revert s. induction needle as [|a needle IH]; intros s.
  - split; [intros _; exists s; reflexivity|]. by destruct s.
  - destruct s as [|b s]; simpl; [split; [discriminate | by intros [? ?]]|].
    destruct (ascii_dec a b) as [->|Hne].
    + rewrite IH. split; intros [rest Hrest]; exists rest; congruence.
    + split; [discriminate | intros [rest ?]; congruence].
Qed.

Lemma string_app_assoc (a b c : string) : (a +:+ b) +:+ c = a +:+ (b +:+ c).
Proof. induction a as [|x a IH]; simpl; [done | by rewrite IH]. Qed.

Lemma indexOf_unfold (needle s : string) :
  indexOf needle s
  = if String.prefix needle s then 0%Z
    else match s with
         | EmptyString => (-1)%Z
         | String _ rest =>
             if (indexOf needle rest =? -1)%Z then (-1)%Z
             else (indexOf needle rest + 1)%Z
         end.
Proof. by destruct s. Qed.

Lemma indexOf_range (needle s : string) :
  (0 <= indexOf needle s ∨ indexOf needle s = -1)%Z.
Proof.
  induction s as [|c s IH]; rewrite indexOf_unfold;
    destruct (String.prefix _ _); try lia.
  destruct (Z.eqb_spec (indexOf needle s) (-1)); lia.
Qed.

(** [indexOf] finds the needle exactly when the needle occurs. *)
Lemma indexOf_found (needle s : string) :
  indexOf needle s ≠ (-1)%Z ↔ ∃ a b, s = a +:+ needle +:+ b.
Proof.
  induction s as [|c s IH]; rewrite indexOf_unfold;
    destruct (String.prefix needle _) eqn:Hp.
  - apply prefix_true in Hp as [rest Hrest]. split; [|intros _; lia].
    intros _. by exists EmptyString, rest.
  - split; [lia|]. intros (a & b & Heq).
    destruct a; [|discriminate]. simpl in Heq.
    assert (String.prefix needle EmptyString = true) by (apply prefix_true; eauto).
    congruence.
  - apply prefix_true in Hp as [rest Hrest]. split; [|intros _; lia].
    intros _. by exists EmptyString, rest.
  - assert (indexOf needle s ≠ (-1)%Z ↔
            (if (indexOf needle s =? -1)%Z then (-1)%Z
             else (indexOf needle s + 1)%Z) ≠ (-1)%Z) as <-.
    { pose proof (indexOf_range needle s).
      destruct (Z.eqb_spec (indexOf needle s) (-1)); lia. }
    rewrite IH. split.
    + intros (a & b & ->). by exists (String c a), b.
    + intros (a & b & Heq). destruct a as [|x a].
      * simpl in Heq.
        assert (String.prefix needle (String c s) = true)
          by (apply prefix_true; eauto).
        congruence.
      * injection Heq as -> ->. by exists a, b.
Qed.

Lemma slice_last_app_char (s : string) (c : ascii) :
  slice_last (s +:+ String c EmptyString) = String c EmptyString.
Proof.
  induction s as [|a s IH]; simpl; [done|].
  rewrite IH. by destruct s.
Qed.

Lemma slice_last_cons (c : ascii) (s : string) :
  s ≠ EmptyString → slice_last (String c s) = slice_last s.
Proof. by destruct s. Qed.

Lemma slice_last_app (a b : string) :
  b ≠ EmptyString → slice_last (a +:+ b) = slice_last b.
Proof.
  intros Hb. induction a as [|x a IH]; simpl; [done|].
  rewrite <- IH. destruct (a +:+ b) eqn:Hab; [|done].
  destruct a; simpl in Hab; [done | discriminate].
Qed.

Lemma matchesHtmlSuffix_true (name t : string) :
  matchesHtmlSuffix name t = true
  ↔ ∃ c ws, t = name +:+ String c ("html" +:+ ws)
            ∧ isLineTerminator c = false ∧ allWhiteSpace ws = true.
Proof.
  unfold matchesHtmlSuffix. split.
  - destruct (afterLiteral name t) as [[|c rest]|] eqn:Hname; try discriminate.
    apply afterLiteral_Some in Hname as ->.
    intros [Hc Hrest]%andb_true_iff.
    destruct (afterLiteral "html" rest) as [ws|] eqn:Hhtml; [|discriminate].
    apply afterLiteral_Some in Hhtml as ->.
    exists c, ws. by apply negb_true_iff in Hc.
  - intros (c & ws & -> & Hc & Hws).
    assert (afterLiteral name (name +:+ String c ("html" +:+ ws))
            = Some (String c ("html" +:+ ws))) as -> by by apply afterLiteral_Some.
    rewrite Hc. simpl. done.
Qed.

Lemma allWhiteSpace_app (a b : string) :
  allWhiteSpace (a +:+ b) = allWhiteSpace a && allWhiteSpace b.
Proof.
  induction a as [|x a IH]; simpl; [done|]. by rewrite IH, andb_assoc.
Qed.

Lemma allWhiteSpace_slice_last (ws : string) :
  allWhiteSpace ws = true → ws ≠ EmptyString →
  ∃ w, slice_last ws = String w EmptyString ∧ isWhiteSpace w = true.
Proof.
  induction ws as [|x ws IH]; [done|]. simpl.
  intros [Hx Hws]%andb_true_iff _. destruct ws as [|y ws]; [by exists x|].
  by apply IH.
Qed.

(** A string the regular expression matches as a whole ends with the
    letter l or with white space. *)
Lemma matchesHtmlSuffix_slice_last (name t : string) :
  matchesHtmlSuffix name t = true → slice_last t ≠ "/".
Proof.
  intros (c & ws & -> & _ & Hws)%matchesHtmlSuffix_true.
  rewrite slice_last_app by done.
  rewrite slice_last_cons by done.
  destruct ws as [|w ws]; [simpl; discriminate|].
  rewrite (slice_last_app "html" (String w ws)) by done.
  destruct (allWhiteSpace_slice_last (String w ws)) as (x & -> & Hx); [done..|].
  intros [= ->]. discriminate.
Qed.

(** The replacement leaves a string that ends with a slash as it is. *)
Lemma replaceHtmlSuffix_slash (name s : string) :
  slice_last s = "/" → replaceHtmlSuffix name s = s.
Proof.
  induction s as [|c s IH]; [discriminate|]. intros Hlast.
  simpl replaceHtmlSuffix.
  destruct (matchesHtmlSuffix name (String c s)) eqn:Hm.
  { by apply matchesHtmlSuffix_slice_last in Hm. }
  f_equal. destruct s as [|d s].
  - simpl. by destruct (matchesHtmlSuffix name EmptyString).
  - apply IH. by rewrite slice_last_cons in Hlast.
Qed.

(** In a string the regular expression matches as a whole, a slash can
    only stand for the wildcard: the letter h follows it. *)
Lemma slash_in_match (name : string) (c : ascii) (ws a b : string) :
  (∀ a b, name ≠ a +:+ "/" +:+ b) →
  allWhiteSpace ws = true →
  name +:+ String c ("html" +:+ ws) = a +:+ "/" +:+ b →
  ∃ b', b = String "h" b'.
Proof.
  intros Hname Hws. revert a. induction name as [|n name IH]; intros a Heq.
  - simpl in Heq. destruct a as [|x a]; simpl in Heq.
    { injection Heq as -> <-. by eexists. }
    injection Heq as -> Heq.
    do 4 (destruct a as [|? a]; simpl in Heq; [discriminate|];
          injection Heq as <- Heq).
    exfalso. rewrite Heq, allWhiteSpace_app in Hws. simpl in Hws.
    by rewrite andb_false_r in Hws.
  - destruct a as [|x a]; simpl in Heq.
    { injection Heq as -> _. by destruct (Hname EmptyString name). }
    injection Heq as -> Heq. apply (IH) with a; [|done].
    intros a' b' ->. by apply (Hname (String x a') b').
Qed.

Lemma no_slash_in_names (name : string) :
  name = "iframe" ∨ name = "index" → ∀ a b, name ≠ a +:+ "/" +:+ b.
Proof.
  intros Hname a b Heq.
  assert (indexOf "/" name ≠ (-1)%Z) as Hfound
    by (apply indexOf_found; eauto).
  by destruct Hname as [-> | ->].
Qed.

(** The replacement never cuts at or before a double slash. *)
Lemma replaceHtmlSuffix_double_slash (name a b : string) :
  name = "iframe" ∨ name = "index" →
  replaceHtmlSuffix name (a +:+ "//" +:+ b)
  = a +:+ "//" +:+ replaceHtmlSuffix name b.
Proof.
  intros Hname. induction a as [|x a IH].
  - simpl "+:+". simpl replaceHtmlSuffix.
    assert (∀ s, matchesHtmlSuffix name (String "/" s) = false) as Hslash
      by (intros s; by destruct Hname as [-> | ->]).
    by rewrite !Hslash.
  - simpl "+:+". simpl replaceHtmlSuffix.
    destruct (matchesHtmlSuffix name _) eqn:Hm; [|f_equal; apply IH].
    apply matchesHtmlSuffix_true in Hm as (c & ws & Heq & _ & Hws).
    symmetry in Heq.
    destruct (slash_in_match name c ws (String x a) (String "/" b))
      as [b' [=]]; [by apply no_slash_in_names | done | exact Heq].
Qed.

Lemma string_app_nil_r (s : string) : s +:+ EmptyString = s.
Proof. induction s as [|c s IH]; simpl; [done | by rewrite IH]. Qed.

Lemma slice_last_slash_inv (s : string) :
  slice_last s = "/" → ∃ init, s = init +:+ "/".
Proof.
  induction s as [|c s IH]; [discriminate|]. destruct s as [|d s].
  - intros [= ->]. by exists EmptyString.
  - rewrite slice_last_cons by done. intros [init ->]%IH.
    by exists (String c init).
Qed.

(** The test that decides whether [http://] is put in front. *)
Lemma protocol_test (url : string) :
  (indexOf "http://" url =? -1)%Z && (indexOf "https://" url =? -1)%Z = false
  ↔ indexOf "http://" url ≠ (-1)%Z ∨ indexOf "https://" url ≠ (-1)%Z.
Proof.
  rewrite andb_false_iff, !Z.eqb_neq. done.
Qed.

(** A string with a protocol has a double slash, and the protocol ends
    with it. *)
Lemma protocol_double_slash (u : string) :
  indexOf "http://" u ≠ (-1)%Z ∨ indexOf "https://" u ≠ (-1)%Z →
  ∃ a proto b,
    u = (a +:+ proto) +:+ "//" +:+ b ∧ (proto = "http:" ∨ proto = "https:").
Proof.
  intros [(a & b & ->)%indexOf_found | (a & b & ->)%indexOf_found].
  - exists a, "http:", b. split; [|by left].
    by rewrite string_app_assoc.
  - exists a, "https:", b. split; [|by right].
    by rewrite string_app_assoc.
Qed.

Lemma double_slash_protocol (a proto b : string) :
  proto = "http:" ∨ proto = "https:" →
  indexOf "http://" ((a +:+ proto) +:+ "//" +:+ b) ≠ (-1)%Z
  ∨ indexOf "https://" ((a +:+ proto) +:+ "//" +:+ b) ≠ (-1)%Z.
Proof.
  intros [-> | ->]; [left | right]; apply indexOf_found; exists a, b;
    by rewrite string_app_assoc.
Qed.

(** The three last steps of [sanitizeURL] keep the protocol of the
    string they are given. *)
Lemma protocol_survives (u : string) :
  indexOf "http://" u ≠ (-1)%Z ∨ indexOf "https://" u ≠ (-1)%Z →
  let trimmed := replaceHtmlSuffix "index" (replaceHtmlSuffix "iframe" u) in
  let final :=
    if negb (String.eqb (slice_last trimmed) "/") then trimmed +:+ "/"
    else trimmed in
  indexOf "http://" final ≠ (-1)%Z ∨ indexOf "https://" final ≠ (-1)%Z.
Proof.
  intros (a & proto & b & -> & Hproto)%protocol_double_slash trimmed final.
  subst final trimmed.
  rewrite !replaceHtmlSuffix_double_slash by auto.
  destruct (negb _).
  - rewrite !string_app_assoc.
    rewrite <- (string_app_assoc a proto). rewrite <- string_app_assoc.
    rewrite (string_app_assoc _ "//").
    by apply double_slash_protocol.
  - by apply double_slash_protocol.
Qed.

(** The string [sanitizeURL] works on after its first step has a
    protocol. *)
Lemma protocol_after_first_step (url : string) :
  let u :=
    if (indexOf "http://" url =? -1)%Z && (indexOf "https://" url =? -1)%Z
    then "http://" +:+ url else url in
  indexOf "http://" u ≠ (-1)%Z ∨ indexOf "https://" u ≠ (-1)%Z.
Proof.
  intros u. subst u.
  destruct ((indexOf "http://" url =? -1)%Z && (indexOf "https://" url =? -1)%Z)
    eqn:Htest.
  - left. apply indexOf_found. by exists EmptyString, url.
  - by apply protocol_test.
Qed.

(** At the end of a part that is empty or ends with a slash, before the
    letter i, the replacement starts afresh. *)
Lemma replaceHtmlSuffix_boundary (name p rest : string) :
  name = "iframe" ∨ name = "index" →
  p = EmptyString ∨ slice_last p = "/" →
  replaceHtmlSuffix name (p +:+ String "i" rest)
  = p +:+ replaceHtmlSuffix name (String "i" rest).
Proof.
  intros Hname. induction p as [|x p IH]; intros Hp; [done|].
  destruct Hp as [|Hlast]; [discriminate|].
  simpl "+:+". simpl replaceHtmlSuffix.
  destruct (matchesHtmlSuffix name _) eqn:Hm.
  - apply matchesHtmlSuffix_true in Hm as (c & ws & Heq & _ & Hws).
    apply slice_last_slash_inv in Hlast as [init Hinit].
    change (String x (p +:+ String "i" rest))
      with (String x p +:+ String "i" rest) in Heq.
    rewrite Hinit, string_app_assoc in Heq. symmetry in Heq.
    apply slash_in_match in Heq as [b' [=]]; [by apply no_slash_in_names | done].
  - f_equal. apply IH. destruct p as [|y p]; [by left | right].
    by rewrite slice_last_cons in Hlast.
Qed.

Lemma replaceHtmlSuffix_match (name t : string) :
  matchesHtmlSuffix name t = true → replaceHtmlSuffix name t = EmptyString.
Proof. intros Hm. destruct t; simpl; by rewrite Hm. Qed.

Lemma not_i_whitespace (w : ascii) :
  isWhiteSpace w = true → Ascii.eqb "i" w = false.
Proof. destruct (Ascii.eqb_spec "i" w) as [<-|]; [discriminate | done]. Qed.

Lemma replaceHtmlSuffix_whitespace (name ws : string) :
  name = "iframe" ∨ name = "index" →
  allWhiteSpace ws = true → replaceHtmlSuffix name ws = ws.
Proof.
  intros Hname. induction ws as [|w ws IH]; simpl.
  - intros _. by destruct Hname as [-> | ->].
  - intros [Hw Hws]%andb_true_iff.
    assert (matchesHtmlSuffix name (String w ws) = false) as ->.
    { unfold matchesHtmlSuffix.
      destruct Hname as [-> | ->]; cbn [afterLiteral];
        by rewrite not_i_whitespace. }
    by rewrite IH.
Qed.

(** The expression for [iframe.html] does not match inside a trailing
    [index.html]. *)
Lemma replace_iframe_in_index (c : ascii) (ws : string) :
  allWhiteSpace ws = true →
  replaceHtmlSuffix "iframe" ("index" +:+ String c ("html" +:+ ws))
  = "index" +:+ String c ("html" +:+ ws).
Proof.
  intros Hws. simpl.
  assert (matchesHtmlSuffix "iframe" (String c (String "h" (String "t"
            (String "m" (String "l" ws))))) = false) as ->.
  { unfold matchesHtmlSuffix. cbn [afterLiteral].
    by destruct (Ascii.eqb "i" c). }
  by rewrite (replaceHtmlSuffix_whitespace "iframe") by auto.
Qed.

Lemma protocol_app (p t : string) :
  indexOf "http://" p ≠ (-1)%Z ∨ indexOf "https://" p ≠ (-1)%Z →
  indexOf "http://" (p +:+ t) ≠ (-1)%Z ∨ indexOf "https://" (p +:+ t) ≠ (-1)%Z.
Proof.
  intros [(a & b & ->)%indexOf_found | (a & b & ->)%indexOf_found];
    [left | right]; apply indexOf_found; exists a, (b +:+ t);
    by rewrite !string_app_assoc.
Qed.

(** X10: the URL that [sanitizeURL] returns ends with a slash and holds
    [http://] or [https://]: the removal of a trailing [iframe.html] or
    [index.html] never cuts into the protocol. *)
Theorem sanitizeURL_well_formed (url : string) :
  slice_last (sanitizeURL url) = "/"
  ∧ (indexOf "http://" (sanitizeURL url) ≠ (-1)%Z
     ∨ indexOf "https://" (sanitizeURL url) ≠ (-1)%Z).
Proof.
  split.
  - unfold sanitizeURL.
    set (u := replaceHtmlSuffix "index" _).
    destruct (String.eqb_spec (slice_last u) "/") as [Hlast | Hlast]; simpl.
    + done.
    + apply slice_last_app_char.
  - unfold sanitizeURL. apply protocol_survives, protocol_after_first_step.
Qed.

(** X11: [sanitizeURL] returns a URL that has a protocol and ends with a
    slash as it is. *)
Theorem sanitizeURL_fixpoint (url : string) :
  indexOf "http://" url ≠ (-1)%Z ∨ indexOf "https://" url ≠ (-1)%Z →
  slice_last url = "/" →
  sanitizeURL url = url.
Proof.
  intros Hproto Hlast. unfold sanitizeURL.
  apply protocol_test in Hproto as ->.
  rewrite !replaceHtmlSuffix_slash by (by rewrite ?replaceHtmlSuffix_slash).
  by rewrite Hlast.
Qed.

(** X12: [sanitizeURL] is idempotent. *)
Theorem sanitizeURL_idempotent (url : string) :
  sanitizeURL (sanitizeURL url) = sanitizeURL url.
Proof.
  set (r := sanitizeURL url).
  assert (slice_last r = "/") as Hlast.
  { subst r. unfold sanitizeURL.
    set (u := replaceHtmlSuffix "index" _).
    destruct (String.eqb_spec (slice_last u) "/") as [Hu | Hu]; simpl;
      [done | apply slice_last_app_char]. }
  assert (indexOf "http://" r ≠ (-1)%Z ∨ indexOf "https://" r ≠ (-1)%Z) as Hproto.
  { subst r. unfold sanitizeURL.
    apply protocol_survives, protocol_after_first_step. }
  unfold sanitizeURL at 1. apply protocol_test in Hproto as ->.
  rewrite (replaceHtmlSuffix_slash "iframe" r Hlast).
  rewrite (replaceHtmlSuffix_slash "index" r Hlast).
  by rewrite Hlast.
Qed.

(** X13: a trailing [iframe.html] or [index.html] is removed, together with
    the white space after it; the dot of the regular expression is a
    wildcard, so any code unit but a line terminator may stand between
    the name and [html]. *)
Theorem sanitizeURL_strips_html (p name ws : string) (c : ascii) :
  indexOf "http://" p ≠ (-1)%Z ∨ indexOf "https://" p ≠ (-1)%Z →
  slice_last p = "/" →
  name = "iframe" ∨ name = "index" →
  isLineTerminator c = false →
  allWhiteSpace ws = true →
  sanitizeURL (p +:+ name +:+ String c ("html" +:+ ws)) = p.
Proof.
  intros Hproto Hlast Hname Hc Hws. unfold sanitizeURL.
  apply (protocol_app p (name +:+ String c ("html" +:+ ws))) in Hproto.
  apply protocol_test in Hproto as ->.
  assert (replaceHtmlSuffix "index"
            (replaceHtmlSuffix "iframe" (p +:+ name +:+ String c ("html" +:+ ws)))
          = p) as ->; [|by rewrite Hlast].
  destruct Hname as [-> | ->].
  - change ("iframe" +:+ String c ("html" +:+ ws))
      with (String "i" ("frame" +:+ String c ("html" +:+ ws))).
    rewrite replaceHtmlSuffix_boundary by auto.
    rewrite (replaceHtmlSuffix_match "iframe"), string_app_nil_r.
    + by apply replaceHtmlSuffix_slash.
    + apply matchesHtmlSuffix_true. by exists c, ws.
  - change ("index" +:+ String c ("html" +:+ ws))
      with (String "i" ("ndex" +:+ String c ("html" +:+ ws))).
    rewrite replaceHtmlSuffix_boundary by auto.
    change (String "i" ("ndex" +:+ String c ("html" +:+ ws)))
      with ("index" +:+ String c ("html" +:+ ws)).
    rewrite replace_iframe_in_index by done.
    change ("index" +:+ String c ("html" +:+ ws))
      with (String "i" ("ndex" +:+ String c ("html" +:+ ws))).
    rewrite replaceHtmlSuffix_boundary by auto.
    rewrite (replaceHtmlSuffix_match "index"), string_app_nil_r; [done|].
    apply matchesHtmlSuffix_true. by exists c, ws.
Qed.

(** X14: a URL that holds neither [http://] nor [https://], at any position,
    is returned with [http://] in front. *)
Theorem sanitizeURL_prepends_http (url : string) :
  indexOf "http://" url = (-1)%Z → indexOf "https://" url = (-1)%Z →
  ∃ rest, sanitizeURL url = "http://" +:+ rest.
Proof.
  intros Hhttp Hhttps. unfold sanitizeURL. rewrite Hhttp, Hhttps. simpl andb.
  cbv iota.
  change ("http://" +:+ url) with (("" +:+ "http:") +:+ "//" +:+ url).
  rewrite !replaceHtmlSuffix_double_slash by auto.
  destruct (negb _); by eexists.
Qed.

(** ** The further properties on concrete inputs *)

Lemma groupByTitleId_partition_witness :
  ∃ groups,
    groupByTitleId sample_toId V4Entry.title [primary; intro_docs; secondary]
    = Ok groups
    ∧ concat (map_to_list groups).*2 ≡ₚ [primary; intro_docs; secondary].
Proof.
  eexists. split; [vm_compute; reflexivity|].
  apply (groupByTitleId_partition sample_toId V4Entry.title
           [primary; intro_docs; secondary]).
  vm_compute; reflexivity.
Defined.

Lemma groupByTitleId_groups_witness :
  ∃ groups,
    groupByTitleId sample_toId V4Entry.title [primary; intro_docs; secondary]
    = Ok groups
    ∧ (∀ group,
         groups !! "button" = Some group
         ↔ group = withTitleId sample_toId V4Entry.title "button"
                               [primary; intro_docs; secondary]
           ∧ group ≠ [])
    ∧ (groups !! "button" = None
       ↔ ∀ entry, entry ∈ [primary; intro_docs; secondary] →
                  sample_toId (V4Entry.title entry) ≠ Ok "button").
Proof.
  eexists. split; [vm_compute; reflexivity|].
  apply (groupByTitleId_groups sample_toId V4Entry.title
           [primary; intro_docs; secondary]).
  vm_compute; reflexivity.
Defined.

(** The grouping throws on a title whose id names a member of
    [Object.prototype], and on a title that [toId] rejects. *)
Example groupByTitleId_throws :
  groupByTitleId sample_toId id ["Button"; "Constructor"] = Throw TypeError
  ∧ groupByTitleId sample_toId id ["Button"; EmptyString]
    = Throw (Error "Invalid kind '', must include alphanumeric characters").
Proof. split_and!; vm_compute; reflexivity. Qed.

Lemma v3_index_as_v4_witness :
  sample_transform include_test v3_index
  = sample_transform include_test (v3AsV4 sample_toId v3_index).
Proof.
  apply (v3_index_as_v4 sample_Number_toString sample_toId sample_generate
           sample_testPrefixer include_test v3_index).
  reflexivity.
Defined.

Lemma transformPlaywrightJson_returns_witness :
  ∃ out, sample_transform no_tags button_index = Ok out.
Proof.
  apply (transformPlaywrightJson_returns sample_Number_toString sample_toId
           sample_generate sample_testPrefixer no_tags button_index
           sample_testPrefixer_shape).
  right. split_and!; [reflexivity | reflexivity |].
  eexists. split; [reflexivity|].
  intros title Htitle. simpl in Htitle.
  apply elem_of_cons in Htitle as [-> | Htitle];
    [|apply elem_of_cons in Htitle as [-> | Htitle];
      [|by apply elem_of_nil in Htitle]];
    eexists; split; vm_compute; reflexivity.
Defined.

Lemma transformPlaywrightJson_throws_witness :
  Error "Unsupported version 5" = TypeError
  ∨ (strict_eq_number (v v5_index) 3 = false
     ∧ strict_eq_number (v v5_index) 4 = false
     ∧ ∃ version,
         ToString sample_Number_toString (v v5_index) = Ok version
         ∧ Error "Unsupported version 5"
           = Error ("Unsupported version " +:+ version))
  ∨ ((strict_eq_number (v v5_index) 3 = true
      ∨ strict_eq_number (v v5_index) 4 = true)
     ∧ ∃ title, sample_toId title = Throw (Error "Unsupported version 5")).
Proof.
  apply (transformPlaywrightJson_throws sample_Number_toString sample_toId
           sample_generate sample_testPrefixer no_tags v5_index).
  vm_compute; reflexivity.
Defined.

Lemma v4_output_keys_witness :
  ∃ out,
    sample_transform exclude_play docs_index = Ok out
    ∧ ∀ titleId,
        is_Some (out !! titleId)
        ↔ ∃ e, e ∈ [primary; button_docs; intro_docs]
               ∧ sample_toId (V4Entry.title e) = Ok titleId
               ∧ V4Entry.type e ≠ Some Docs.
Proof.
  eexists. split; [vm_compute; reflexivity|].
  apply (v4_output_keys sample_Number_toString sample_toId sample_generate
           sample_testPrefixer exclude_play docs_index
           [("a", primary); ("d", button_docs); ("e", intro_docs)]).
  - reflexivity.
  - reflexivity.
  - vm_compute; reflexivity.
Defined.

(** The suite of [mixed_case_index] bears the title of its first story,
    which the exclude list removes from the blocks. *)
Lemma v4_suite_witness :
  ∃ out,
    sample_transform exclude_play mixed_case_index = Ok out
    ∧ out !! "button"
      = Some (sample_generate
                (Program
                   [makeDescribe "BUTTON"
                      (map (storyBlock sample_testPrefixer exclude_play)
                           (storiesUnderTest exclude_play [loud; secondary]))])).
Proof.
  eexists. split; [vm_compute; reflexivity|].
  apply (v4_suite sample_Number_toString sample_toId sample_generate
           sample_testPrefixer exclude_play mixed_case_index
           [("f", loud); ("b", secondary)] _ "button" loud [secondary]).
  - reflexivity.
  - reflexivity.
  - vm_compute; reflexivity.
  - vm_compute; reflexivity.
Defined.

Example mixed_case_suite :
  ∃ out,
    sample_transform exclude_play mixed_case_index = Ok out
    ∧ map_to_list out
      = [("button",
          "describe('BUTTON', () => {"
          +:+ "describe('Secondary', () => {it('smoke-test', () => {"
          +:+ "testFn({id: 'b', title: 'Button', name: 'Secondary'});});});"
          +:+ "});")].
Proof. eexists. split; vm_compute; reflexivity. Qed.

Lemma laxer_options_test_more_witness :
  sublist (storiesUnderTest include_and_exclude_play [primary; secondary])
          (storiesUnderTest no_tags [primary; secondary]).
Proof.
  apply (laxer_options_test_more no_tags include_and_exclude_play
           [primary; secondary]).
  - left. reflexivity.
  - simpl. set_solver.
Defined.

Lemma sanitizeURL_fixpoint_witness :
  sanitizeURL "http://localhost:6006/" = "http://localhost:6006/".
Proof.
  apply (sanitizeURL_fixpoint "http://localhost:6006/").
  - left. vm_compute. discriminate.
  - reflexivity.
Defined.

Lemma sanitizeURL_strips_html_witness :
  sanitizeURL "https://example.com/docs/iframe-html  " = "https://example.com/docs/".
Proof.
  apply (sanitizeURL_strips_html "https://example.com/docs/" "iframe" "  " "-").
  - right. vm_compute. discriminate.
  - reflexivity.
  - left. reflexivity.
  - reflexivity.
  - reflexivity.
Defined.

Lemma sanitizeURL_prepends_http_witness :
  ∃ rest, sanitizeURL "localhost:6006/index.html" = "http://" +:+ rest.
Proof.
  apply (sanitizeURL_prepends_http "localhost:6006/index.html"); reflexivity.
Defined.

Example sanitizeURL_examples :
  sanitizeURL "localhost:6006" = "http://localhost:6006/"
  ∧ sanitizeURL "localhost:6006/index.html" = "http://localhost:6006/"
  ∧ sanitizeURL "example.com/?from=http://other" = "example.com/?from=http://other/"
  ∧ sanitizeURL "iframe.html" = "http://"
  ∧ sanitizeURL EmptyString = "http://".
Proof. repeat split; vm_compute; reflexivity. Qed.
